(** * SyncTasks: the multi-device synchronisation core of [sync-manager.js]

    A shallow embedding of the [SyncManager] and [TaskManager] classes:
    conflict resolution, the merge of a local and a remote task list, the
    device registry upsert, the propagation of a merged list into the local
    record store, and the sync cycle that drives them.

    The JavaScript built-ins the code relies on ([Date], [Map], [Set],
    [Array.prototype.sort]) are modelled in module [JS]. *)

From Stdlib Require Import ZArith String List Lia.
From stdpp Require Import base option list gmap strings sorting.

Local Open Scope Z_scope.

(** ** JavaScript built-ins *)

Module JS.

(** The time value held by a [Date] object: milliseconds since the epoch,
    or [NaN] for an invalid date. *)
Inductive timeval : Type :=
| NaN
| Time (ms : Z).

(** A stored timestamp field ([updatedAt], [lastSeen], [deadline]),
    classified by what the conversions used in the source make of it:
    - [Missing]: a falsy value that [new Date(v)] cannot read
      ([undefined], the empty string);
    - [Null]: a falsy value that [new Date(v)] reads as the epoch
      ([null], the number [0]);
    - [Invalid]: a truthy value that is no date (an unparseable string);
    - [At ms]: a truthy value denoting the instant [ms] (an ISO string as
      written by [toISOString], a number other than [0]). *)
Inductive stamp : Type :=
| Missing
| Null
| Invalid
| At (ms : Z).

(** Whether [v] counts as true in [v || 0] and [v && ...]. *)
Definition truthy (v : stamp) : bool :=
  match v with
  | Missing | Null => false
  | Invalid | At _ => true
  end.

(** [new Date(v)] *)
Definition Date_of (v : stamp) : timeval :=
  match v with
  | Missing => NaN
  | Null => Time 0
  | Invalid => NaN
  | At ms => Time ms
  end.

(** [new Date(v || 0)] *)
Definition Date_or0 (v : stamp) : timeval :=
  if truthy v then Date_of v else Time 0.

(** [a > b] on two [Date] objects: both are converted to numbers, and any
    comparison with NaN is false. *)
Definition date_gt (a b : timeval) : bool :=
  match a, b with
  | Time x, Time y => y <? x
  | _, _ => false
  end.

(** [a - b] on two [Date] objects; [None] is NaN. *)
Definition date_sub (a b : timeval) : option Z :=
  match a, b with
  | Time x, Time y => Some (x - y)
  | _, _ => None
  end.

Definition msPerDay : Z := 86400000.

(** [d.setDate(d.getDate() - n)] on a date with time value [t].
    [setDate] works on the local calendar: the time value is shifted to
    local time with the zone offset in force at [t], moved back [n] whole
    days, and shifted back with the offset in force at the resulting local
    time.  [tza t isUTC] is ECMAScript's [LocalTZA].  (Time values are not
    clipped to the range of [Date].) *)
Definition setDate_back (tza : Z -> bool -> Z) (t : Z) (n : Z) : Z :=
  let local := t + tza t true in
  let moved := local - n * msPerDay in
  moved - tza moved false.

(** [d.toDateString()] of two valid dates agree exactly when both fall on
    the same local calendar day; an invalid date prints as "Invalid Date". *)
Definition localDay (tza : Z -> bool -> Z) (t : Z) : Z :=
  (t + tza t true) `div` msPerDay.

(** *** [Map]: insertion-ordered, one entry per key *)

Section MapSet.
Context {K : Type} `{EqDecision K} {V : Type}.

(** [m.set(k, v)]: an existing key keeps its position and takes the new
    value; a new key goes last. *)
Fixpoint Map_set (k : K) (v : V) (m : list (K * V)) : list (K * V) :=
  match m with
  | [] => [(k, v)]
  | (k', v') :: m' =>
      if decide (k = k') then (k, v) :: m' else (k', v') :: Map_set k v m'
  end.

(** [new Map(entries)] *)
Definition Map_new (entries : list (K * V)) : list (K * V) :=
  foldl (fun m e => Map_set e.1 e.2 m) [] entries.

(** [m.get(k)]; [None] is [undefined]. *)
Fixpoint Map_get (k : K) (m : list (K * V)) : option V :=
  match m with
  | [] => None
  | (k', v) :: m' => if decide (k = k') then Some v else Map_get k m'
  end.

(** [m.keys()] *)
Definition Map_keys (m : list (K * V)) : list K := m.*1.

(** [s.add(x)] on a [Set] *)
Definition Set_add (s : list K) (x : K) : list K :=
  if decide (x ∈ s) then s else s ++ [x].

(** [new Set(xs)] *)
Definition Set_new (xs : list K) : list K := foldl Set_add [] xs.
End MapSet.

(** *** [Array.prototype.sort] with a comparator

    The comparator returns a number; NaN counts as [+0].  The sort is
    stable.  It is modelled as a stable insertion sort: an element stays
    in front of the elements that followed it unless the comparator
    returns a positive number.  (Where the comparator is consistent, every
    stable sort gives this result.) *)
Section Sort.
Context {A : Type} (cmp : A -> A -> option Z).

Definition sort_keeps (a b : A) : bool :=
  match cmp a b with
  | Some z => z <=? 0
  | None => true
  end.

Fixpoint sort_insert (x : A) (l : list A) : list A :=
  match l with
  | [] => [x]
  | y :: l' => if sort_keeps x y then x :: y :: l' else y :: sort_insert x l'
  end.

Definition Array_sort (l : list A) : list A := foldr sort_insert [] l.

(** Adjacent elements are in an order the comparator accepts. *)
Definition in_order (l : list A) : Prop :=
  Sorted (fun a b => sort_keeps a b = true) l.
End Sort.

End JS.

Import JS.

(** ** Data model *)

Module Task.
Record t : Type := mk {
  id : Z;
  title : string;
  description : string;
  priority : string;
  category : string;
  deadline : stamp;
  completed : bool;
  deleted : bool;
  createdAt : stamp;
  updatedAt : stamp;
  synced : bool;
  deviceId : string
}.

(** [{...task, synced: true}] *)
Definition with_synced (b : bool) (x : t) : t :=
  mk (id x) (title x) (description x) (priority x) (category x) (deadline x)
     (completed x) (deleted x) (createdAt x) (updatedAt x) b (deviceId x).
End Task.

Module Device.
Record t : Type := mk {
  id : string;
  name : string;
  lastSeen : stamp;
  online : bool
}.
End Device.

(** ** Conflict resolution and merge ([SyncManager.resolveConflict],
    [SyncManager.mergeData]) *)

Definition resolveConflict (localTask remoteTask : Task.t) : Task.t :=
  let localTime := Date_or0 (Task.updatedAt localTask) in
  let remoteTime := Date_or0 (Task.updatedAt remoteTask) in
  if date_gt localTime remoteTime then localTask
  else if date_gt remoteTime localTime then remoteTask
  else localTask.

(** The comparator handed to [sort]:
    [(a, b) => new Date(b.updatedAt) - new Date(a.updatedAt)]. *)
Definition byUpdatedAtDesc (a b : Task.t) : option Z :=
  date_sub (Date_of (Task.updatedAt b)) (Date_of (Task.updatedAt a)).

(** The body of the loop over [allIds]: the record pushed for [id].  An id
    of [allIds] is a key of one of the two maps, so the last case of the
    first branch ([remoteTask] undefined as well) does not arise. *)
Definition mergeOne (localMap remoteMap : list (Z * Task.t)) (id : Z)
  : option Task.t :=
  match Map_get id localMap, Map_get id remoteMap with
  | None, remoteTask => remoteTask
  | Some localTask, None => Some localTask
  | Some localTask, Some remoteTask => Some (resolveConflict localTask remoteTask)
  end.

Definition mergeData (localTasks remoteTasks : list Task.t) : list Task.t :=
  let localMap := Map_new ((fun task => (Task.id task, task)) <$> localTasks) in
  let remoteMap := Map_new ((fun task => (Task.id task, task)) <$> remoteTasks) in
  let allIds := Set_new (Map_keys localMap ++ Map_keys remoteMap) in
  let mergedTasks := omap (mergeOne localMap remoteMap) allIds in
  Array_sort byUpdatedAtDesc mergedTasks.

(** ** The local record store ([TaskManager], a Dexie table keyed by [id]) *)

Module TaskManager.

(** The order of the primary keys. *)
Definition key_le (a b : Z * Task.t) : Prop := a.1 <= b.1.

#[global] Instance key_le_dec : RelDecision key_le.
Proof. intros a b. unfold key_le. apply _. Defined.

(** [db.tasks.toArray()]: every record, in primary-key order. *)
Definition toArray (db : gmap Z Task.t) : list Task.t :=
  (merge_sort key_le (map_to_list db)).*2.

(** [getAllTasks(filter)].  [today] is the current instant, read only by
    the ['today'] filter. *)
Definition getAllTasks (tza : Z -> bool -> Z) (today : Z) (filter : string)
    (db : gmap Z Task.t) : list Task.t :=
  let tasks := toArray db in
  let tasks := List.filter (fun task => negb (Task.deleted task)) tasks in
  if decide (filter = "completed") then
    List.filter (fun task => Task.completed task) tasks
  else if decide (filter = "pending") then
    List.filter (fun task => negb (Task.completed task)) tasks
  else if decide (filter = "today") then
    List.filter (fun task =>
      truthy (Task.deadline task) &&
      match Date_of (Task.deadline task) with
      | Time ms => bool_decide (localDay tza ms = localDay tza today)
      | NaN => false
      end) tasks
  else tasks.

(** One round of the loop of [syncTasks]. *)
Definition syncOne (db : gmap Z Task.t) (remoteTask : Task.t) : gmap Z Task.t :=
  if Task.deleted remoteTask then delete (Task.id remoteTask) db
  else
    match db !! Task.id remoteTask with
    | None =>
        <[Task.id remoteTask := Task.with_synced true remoteTask]> db
    | Some localTask =>
        let localTime := Date_or0 (Task.updatedAt localTask) in
        let remoteTime := Date_or0 (Task.updatedAt remoteTask) in
        if date_gt remoteTime localTime
        then <[Task.id remoteTask := Task.with_synced true remoteTask]> db
        else db
    end.

(** [syncTasks(remoteTasks)]; the last step is
    [toCollection().modify({ synced: true })]. *)
Definition syncTasks (remoteTasks : list Task.t) (db : gmap Z Task.t)
  : gmap Z Task.t :=
  Task.with_synced true <$> foldl syncOne db remoteTasks.

End TaskManager.

(** ** The remote store ([githubConfig]) and the session state *)

(** What [githubConfig.getData()] yields: the fields of the remote document
    the cycle reads; [None] is an absent field. *)
Record RemoteData : Type := {
  rd_tasks : option (list Task.t);
  rd_devices : option (list Device.t)
}.

(** The document handed to [githubConfig.saveData]. *)
Record RemoteDoc : Type := {
  doc_tasks : list Task.t;
  doc_lastSync : Z;
  doc_devices : list Device.t;
  doc_version : string
}.

Record SaveResult : Type := {
  success : bool;
  error : string
}.

(** The result of a call that may throw (a rejected promise). *)
Inductive Outcome (A : Type) : Type :=
| Ok (a : A)
| Throw (message : string).
Arguments Ok {A} a.
Arguments Throw {A} message.

(** The collaborators of one cycle: the remote store's answers, the clock
    ([now k] is the k-th reading of [new Date()]) and the local time zone. *)
Record World : Type := {
  isConfigured : bool;
  getData : Outcome (option RemoteData);
  saveData : RemoteDoc -> Outcome SaveResult;
  now : nat -> Z;
  localTZA : Z -> bool -> Z
}.

Inductive Severity : Type := info | success_ | warning | error_.
Inductive Status : Type := online | offline | syncing.

(** What the cycle does to the outside, in order. *)
Inductive Event : Type :=
| EStatus (status : Status)                 (* updateSyncStatus *)
| ELog (message : string) (type : Severity) (* this.log *)
| ERead                                     (* githubConfig.getData() *)
| EWrite (doc : RemoteDoc)                  (* githubConfig.saveData(doc) *)
| ENotify (message : string) (type : Severity) (* showNotification *)
| ELastSyncDisplay.                         (* updateLastSyncDisplay *)

(** The [SyncManager] object, the [localStorage] keys it uses, the task
    table, the number of clock readings so far and the trace of events. *)
Record State : Type := mkState {
  isOnline : bool;
  isSyncing : bool;
  lastSync : option Z;
  deviceId : string;
  autoSync : bool;
  stored_lastSync : option Z;
  stored_deviceName : option string;
  tasks : gmap Z Task.t;
  ticks : nat;
  trace : list Event
}.

Definition set_isSyncing (b : bool) (s : State) : State :=
  mkState (isOnline s) b (lastSync s) (deviceId s) (autoSync s)
    (stored_lastSync s) (stored_deviceName s) (tasks s) (ticks s) (trace s).
Definition set_lastSync (v : option Z) (s : State) : State :=
  mkState (isOnline s) (isSyncing s) v (deviceId s) (autoSync s)
    (stored_lastSync s) (stored_deviceName s) (tasks s) (ticks s) (trace s).
Definition set_stored_lastSync (v : option Z) (s : State) : State :=
  mkState (isOnline s) (isSyncing s) (lastSync s) (deviceId s) (autoSync s)
    v (stored_deviceName s) (tasks s) (ticks s) (trace s).
Definition set_tasks (db : gmap Z Task.t) (s : State) : State :=
  mkState (isOnline s) (isSyncing s) (lastSync s) (deviceId s) (autoSync s)
    (stored_lastSync s) (stored_deviceName s) db (ticks s) (trace s).
Definition set_ticks (n : nat) (s : State) : State :=
  mkState (isOnline s) (isSyncing s) (lastSync s) (deviceId s) (autoSync s)
    (stored_lastSync s) (stored_deviceName s) (tasks s) n (trace s).
Definition emit (e : Event) (s : State) : State :=
  mkState (isOnline s) (isSyncing s) (lastSync s) (deviceId s) (autoSync s)
    (stored_lastSync s) (stored_deviceName s) (tasks s) (ticks s) (trace s ++ [e]).

(** ** A state-and-exception monad for the methods of [SyncManager] *)

Definition M (A : Type) : Type := State -> Outcome A * State.

#[global] Instance M_ret : MRet M := fun A (a : A) s => (Ok a, s).
#[global] Instance M_bind : MBind M := fun A B (k : A -> M B) (m : M A) s =>
  match m s with
  | (Ok a, s') => k a s'
  | (Throw msg, s') => (Throw msg, s')
  end.
Definition get : M State := fun s => (Ok s, s).
Definition modify (f : State -> State) : M unit := fun s => (Ok tt, f s).
Definition lift {A} (o : Outcome A) : M A := fun s => (o, s).

(** [try { body } catch (e) { handler(e.message) } finally { cleanup }] *)
Definition try_catch_finally (body : M unit) (handler : string -> M unit)
    (cleanup : M unit) : M unit :=
  fun s =>
    match body s with
    | (Ok _, s') => cleanup s'
    | (Throw msg, s') =>
        match handler msg s' with
        | (Ok _, s'') => cleanup s''
        | (Throw msg', s'') =>
            match cleanup s'' with
            | (Ok _, s3) => (Throw msg', s3)
            | r => r
            end
        end
    end.

(** ** The sync orchestrator ([SyncManager]) *)

Module SyncManager.
Section Cycle.
Variable w : World.

(** [new Date()]: the next reading of the clock. *)
Definition new_Date : M Z :=
  fun s => (Ok (now w (ticks s)), set_ticks (S (ticks s)) s).

(** [this.log(message, type)]: the call is recorded; what the log panel
    shows of it belongs to the presentation layer. *)
Definition log (message : string) (type : Severity) : M unit :=
  modify (emit (ELog message type)).

Definition updateSyncStatus (status : Status) : M unit :=
  modify (emit (EStatus status)).

Definition showNotification (message : string) (type : Severity) : M unit :=
  modify (emit (ENotify message type)).

Definition updateLastSyncDisplay : M unit :=
  modify (emit ELastSyncDisplay).

(** [s.substr(-4)] *)
Definition substr_last4 (s : string) : string :=
  String.substring (String.length s - 4) 4 s.

(** [localStorage.getItem('deviceName') || `Dispositivo-${...}`]; a stored
    empty string is falsy. *)
Definition deviceNameOf (s : State) : string :=
  match stored_deviceName s with
  | Some n => if decide (n = "") then "Dispositivo-" +:+ substr_last4 (deviceId s)
              else n
  | None => "Dispositivo-" +:+ substr_last4 (deviceId s)
  end.

Definition getDeviceName : M string :=
  s ← get; mret (deviceNameOf s).

(** [updateDevicesList(existingDevices)].  The array passed in is
    written to ([existingDevices[i] = ...], [push]); the first component
    of the result is that array after the call, the second the array
    returned. *)
Definition updateDevicesList (existingDevices : list Device.t)
  : M (list Device.t * list Device.t) :=
  s ← get;
  deviceName ← getDeviceName;
  lastSeen ← new_Date;
  let deviceInfo := Device.mk (deviceId s) deviceName (At lastSeen) (isOnline s) in
  let existingDevices' :=
    match list_find (fun d => Device.id d = deviceId s) existingDevices with
    | Some (deviceIndex, _) => <[deviceIndex := deviceInfo]> existingDevices
    | None => existingDevices ++ [deviceInfo]
    end in
  today ← new_Date;
  let sevenDaysAgo := setDate_back (localTZA w) today 7 in
  mret (existingDevices',
       List.filter (fun device =>
                 date_gt (Date_of (Device.lastSeen device)) (Time sevenDaysAgo))
              existingDevices').

(** [window.taskManager.getAllTasks()], with the default filter. *)
Definition taskManager_getAllTasks : M (list Task.t) :=
  s ← get;
  mret (TaskManager.getAllTasks (localTZA w) (now w (ticks s)) "all" (tasks s)).

Definition taskManager_syncTasks (remoteTasks : list Task.t) : M unit :=
  modify (fun s => set_tasks (TaskManager.syncTasks remoteTasks (tasks s)) s).

Definition githubConfig_getData : M (option RemoteData) :=
  modify (emit ERead) ;; lift (getData w).

Definition githubConfig_saveData (doc : RemoteDoc) : M SaveResult :=
  modify (emit (EWrite doc)) ;; lift (saveData w doc).

Definition syncWithGitHub : M unit :=
  s ← get;
  if negb (isConfigured w) || isSyncing s || negb (isOnline s) then mret tt
  else
    modify (set_isSyncing true) ;;
    updateSyncStatus syncing ;;
    try_catch_finally
      (localTasks ← taskManager_getAllTasks;
       _localLastSync ← new_Date;
       _localDeviceName ← getDeviceName;
       remoteData ← githubConfig_getData;
       match remoteData with
       | None => log "Error al obtener datos remotos" error_
       | Some remoteData =>
           let mergedData :=
             mergeData localTasks (default [] (rd_tasks remoteData)) in
           devices ← updateDevicesList (default [] (rd_devices remoteData));
           docLastSync ← new_Date;
           let dataToSave :=
             {| doc_tasks := mergedData;
                doc_lastSync := docLastSync;
                doc_devices := devices.2;
                doc_version := "1.0" |} in
           result ← githubConfig_saveData dataToSave;
           if success result then
             taskManager_syncTasks mergedData ;;
             t ← new_Date;
             modify (set_lastSync (Some t)) ;;
             modify (set_stored_lastSync (Some t)) ;;
             updateLastSyncDisplay ;;
             log "Sincronización completada exitosamente" success_ ;;
             showNotification "Datos sincronizados" success_
           else
             log ("Error al guardar: " +:+ error result) error_
       end)
      (fun message => log ("Error en sincronización: " +:+ message) error_)
      (modify (set_isSyncing false) ;;
       s' ← get;
       updateSyncStatus (if isOnline s' then online else offline)).

Definition manualSync : M unit :=
  s ← get;
  if isSyncing s then log "Ya se está sincronizando..." warning
  else
    log "Iniciando sincronización manual..." info ;;
    syncWithGitHub.
End Cycle.
End SyncManager.

(** ** Auxiliary notions used in the statements *)

(** The local state a cycle may advance: the task table (records and their
    [synced] flags), the persisted [lastSync] and the in-memory one. *)
Definition same_local (s s' : State) : Prop :=
  tasks s' = tasks s ∧ stored_lastSync s' = stored_lastSync s
  ∧ lastSync s' = lastSync s.

(** The self entry built by [updateDevicesList] in state [s]. *)
Definition selfDevice (w : World) (s : State) : Device.t :=
  Device.mk (deviceId s) (SyncManager.deviceNameOf s) (At (now w (ticks s)))
            (isOnline s).

(** The cutoff of the pruning filter in state [s]. *)
Definition pruneCutoff (w : World) (s : State) : Z :=
  setDate_back (localTZA w) (now w (S (ticks s))) 7.

(** ** Sample data *)

(** A task with the given id, title and [updatedAt], all else blank. *)
Definition sampleTask (i : Z) (ttl : string) (u : stamp) : Task.t :=
  Task.mk i ttl "" "medium" "general" Missing false false u u false "device-1".

(** A zone with a constant offset (UTC), a clock that advances one
    millisecond per reading, and a configured remote store that answers a
    read with [read] and a write with [{success: ok}]. *)
Definition fixedZone : Z -> bool -> Z := fun _ _ => 0.
Definition sampleClock (n : nat) : Z := 1700000000000 + Z.of_nat n.
Definition sampleWorld (read : Outcome (option RemoteData)) (ok : bool) : World :=
  {| isConfigured := true;
     getData := read;
     saveData := fun _ => Ok {| success := ok; error := "rejected" |};
     now := sampleClock;
     localTZA := fixedZone |}.

(** An online session over the table [db], with [isSyncing] as given. *)
Definition sampleState (db : gmap Z Task.t) (syncingNow : bool) : State :=
  mkState true syncingNow None "device-1700000000000-k3j9x2m1q" true
          None None db 0 [].

(** A local table holding one tombstone, and a remote document that still
    holds the same task live, with an older timestamp. *)
Definition tombstone5 : Task.t :=
  Task.mk 5 "X" "" "medium" "general" Missing false true (At 10) (At 20) false
          "device-1".
Definition tombStore : gmap Z Task.t := {[ 5 := tombstone5 ]}.
Definition remoteLive5 : RemoteData :=
  {| rd_tasks := Some [sampleTask 5 "X" (At 10)]; rd_devices := None |}.

(** A local table with task 1 titled "A", against a remote document with a
    newer task 1 titled "B" and a task 2 unknown locally. *)
Definition storeA : gmap Z Task.t := {[ 1 := sampleTask 1 "A" (At 10) ]}.
Definition remoteBC : RemoteData :=
  {| rd_tasks := Some [sampleTask 1 "B" (At 11); sampleTask 2 "C" (At 10)];
     rd_devices := None |}.

(** A remote document holding a tombstone for task 5, newer than the live
    local record. *)
Definition storeLive5 : gmap Z Task.t := {[ 5 := sampleTask 5 "X" (At 9) ]}.
Definition remoteTomb5 : RemoteData :=
  {| rd_tasks := Some [Task.mk 5 "X" "" "medium" "general" Missing false true
                               (At 9) (At 10) false "device-2"];
     rd_devices := None |}.

(** The task lists of the documents written to the remote store. *)
Definition writtenTasks (tr : list Event) : list (list Task.t) :=
  omap (fun e => match e with EWrite doc => Some (doc_tasks doc) | _ => None end) tr.

(** A device last seen at [seen]. *)
Definition sampleDevice (i : string) (seen : Z) : Device.t :=
  Device.mk i "Mi-Lin-ab12" (At seen) true.

(** Two remote records that share id 1 and a timestamp. *)
Definition dupRemote : list Task.t :=
  [sampleTask 1 "A" (At 10); sampleTask 1 "B" (At 10)].

(** Deduplication by id as the specification words it for a remote list with
    repeated ids: the first-seen record of each id is the one kept.  Stated
    for comparison with [mergeData]; [seen] holds the ids already kept. *)
Fixpoint dedup_first_seen (seen : list Z) (l : list Task.t) : list Task.t :=
  match l with
  | [] => []
  | t :: l' =>
      if decide (Task.id t ∈ seen) then dedup_first_seen seen l'
      else t :: dedup_first_seen (Task.id t :: seen) l'
  end.

(** ** Connectivity events and the periodic timer ([SyncManager]) *)

Definition set_isOnline (b : bool) (s : State) : State :=
  mkState b (isSyncing s) (lastSync s) (deviceId s) (autoSync s)
    (stored_lastSync s) (stored_deviceName s) (tasks s) (ticks s) (trace s).

(** [handleOnline()].  The call of [syncWithGitHub] is not awaited; the
    handler does nothing after it, and the model runs the cycle through. *)
Definition handleOnline (w : World) : M unit :=
  modify (set_isOnline true) ;;
  SyncManager.updateSyncStatus online ;;
  SyncManager.log "Conectado a internet" success_ ;;
  s ← get;
  if autoSync s then SyncManager.syncWithGitHub w else mret tt.

(** [handleOffline()] *)
Definition handleOffline : M unit :=
  modify (set_isOnline false) ;;
  SyncManager.updateSyncStatus offline ;;
  SyncManager.log "Sin conexión a internet" warning.

(** The callback that [startAutoSync] hands to [setInterval]. *)
Definition autoSyncTick (w : World) : M unit :=
  s ← get;
  if isOnline s && negb (isSyncing s) && isConfigured w
  then SyncManager.syncWithGitHub w
  else mret tt.

(** ** Local edits and statistics ([TaskManager]) *)

(** What the task form hands to [addTask]. *)
Module TaskData.
Record t : Type := mk {
  title : string;
  description : string;
  priority : string;
  category : string;
  deadline : stamp
}.
End TaskData.

(** The [updates] object of [updateTask]: the properties a caller may set;
    [None] is a property the object does not have. *)
Module Updates.
Record t : Type := mk {
  title : option string;
  description : option string;
  priority : option string;
  category : option string;
  deadline : option stamp;
  completed : option bool
}.
End Updates.

(** [db.tasks.update(id, changes)] with the changes of [updateTask]: the
    properties present replace the stored ones, [updatedAt] and [synced]
    are always among them. *)
Definition applyUpdates (u : Updates.t) (updatedAt : Z) (x : Task.t) : Task.t :=
  Task.mk (Task.id x)
    (default (Task.title x) (Updates.title u))
    (default (Task.description x) (Updates.description u))
    (default (Task.priority x) (Updates.priority u))
    (default (Task.category x) (Updates.category u))
    (default (Task.deadline x) (Updates.deadline u))
    (default (Task.completed x) (Updates.completed u))
    (Task.deleted x) (Task.createdAt x) (At updatedAt) false (Task.deviceId x).

(** The changes of [deleteTask]:
    [{deleted: true, updatedAt: ..., synced: false}]. *)
Definition markDeleted (updatedAt : Z) (x : Task.t) : Task.t :=
  Task.mk (Task.id x) (Task.title x) (Task.description x) (Task.priority x)
    (Task.category x) (Task.deadline x) (Task.completed x) true
    (Task.createdAt x) (At updatedAt) false (Task.deviceId x).

(** [if (syncManager.autoSync && syncManager.isOnline) setTimeout(...)]:
    whether a sync is scheduled after a local edit. *)
Definition schedulesSync (s : State) : bool := autoSync s && isOnline s.

(** [getTask(id)]; [None] is [undefined]. *)
Definition getTask (id : Z) : M (option Task.t) :=
  s ← get; mret (tasks s !! id).

(** [addTask(taskData)].  The table's key is auto-incremented ([++id]):
    [nextKey] is the current number of the store's key generator, which the
    store hands out and stores in the record's [id]; adding under a key
    that is taken is rejected.  The result is the record returned, the
    generator's next number and whether a sync was scheduled. *)
Definition addTask (w : World) (taskData : TaskData.t) (nextKey : Z)
  : M (Task.t * Z * bool) :=
  createdAt ← SyncManager.new_Date w;
  updatedAt ← SyncManager.new_Date w;
  s ← get;
  let task :=
    Task.mk nextKey (TaskData.title taskData) (TaskData.description taskData)
      (TaskData.priority taskData) (TaskData.category taskData)
      (TaskData.deadline taskData) false false (At createdAt) (At updatedAt)
      false (deviceId s) in
  match tasks s !! nextKey with
  | Some _ => lift (Throw "ConstraintError")
  | None =>
      modify (set_tasks (<[nextKey := task]> (tasks s))) ;;
      mret (task, nextKey + 1, schedulesSync s)
  end.

(** [updateTask(id, updates)]: the record after the update ([None] when
    there is none under [id]) and whether a sync was scheduled. *)
Definition updateTask (w : World) (id : Z) (updates : Updates.t)
  : M (option Task.t * bool) :=
  updatedAt ← SyncManager.new_Date w;
  modify (fun s => match tasks s !! id with
                   | Some x =>
                       set_tasks (<[id := applyUpdates updates updatedAt x]>
                                    (tasks s)) s
                   | None => s
                   end) ;;
  s ← get;
  task ← getTask id;
  mret (task, schedulesSync s).

(** [deleteTask(id)]: always [true], and whether a sync was scheduled. *)
Definition deleteTask (w : World) (id : Z) : M (bool * bool) :=
  updatedAt ← SyncManager.new_Date w;
  modify (fun s => match tasks s !! id with
                   | Some x =>
                       set_tasks (<[id := markDeleted updatedAt x]> (tasks s)) s
                   | None => s
                   end) ;;
  s ← get;
  mret (true, schedulesSync s).

Module Stats.
Record t : Type := mk {
  total : nat;
  completed : nat;
  pending : nat;
  highPriority : nat;
  today : nat
}.
End Stats.

(** The last filter of [getStats]: the tasks due on the current local day.
    The callback reads the clock once for each task that has a deadline. *)
Fixpoint dueToday (w : World) (tasks : list Task.t) : M (list Task.t) :=
  match tasks with
  | [] => mret []
  | t :: rest =>
      keep ← (if negb (truthy (Task.deadline t)) then mret false
              else
                today ← SyncManager.new_Date w;
                mret (match Date_of (Task.deadline t) with
                      | Time ms => bool_decide (localDay (localTZA w) ms
                                                = localDay (localTZA w) today)
                      | NaN => false
                      end));
      kept ← dueToday w rest;
      mret (if keep : bool then t :: kept else kept)
  end.

(** [getStats()] *)
Definition getStats (w : World) : M Stats.t :=
  tasks ← SyncManager.taskManager_getAllTasks w;
  due ← dueToday w tasks;
  mret (Stats.mk
          (length tasks)
          (length (List.filter (fun t => Task.completed t) tasks))
          (length (List.filter (fun t => negb (Task.completed t)) tasks))
          (length (List.filter (fun t => bool_decide (Task.priority t = "high"))
                               tasks))
          (length due)).

(** ** Counters over a trace *)

Definition isRead (e : Event) : bool :=
  match e with ERead => true | _ => false end.
Definition isWrite (e : Event) : bool :=
  match e with EWrite _ => true | _ => false end.
Definition isErrorLog (e : Event) : bool :=
  match e with ELog _ error_ => true | _ => false end.
Definition isNotification (e : Event) : bool :=
  match e with ENotify _ _ => true | _ => false end.

(** The number of events of a trace that satisfy [p]. *)
Definition count (p : Event -> bool) (tr : list Event) : nat :=
  length (List.filter p tr).

(** The entry guard of a cycle holds. *)
Definition canEnter (w : World) (s : State) : bool :=
  isConfigured w && negb (isSyncing s) && isOnline s.

(** The stored records carry their key as [id], and none is a tombstone. *)
Definition keyed (db : gmap Z Task.t) : Prop :=
  ∀ k t, db !! k = Some t → Task.id t = k.
Definition noTombstone (db : gmap Z Task.t) : Prop :=
  ∀ k t, db !! k = Some t → Task.deleted t = false.

(** Both records carry an [updatedAt] the sort can read, and that of [a] is
    not earlier than that of [b]. *)
Definition newerOrSame (a b : Task.t) : Prop :=
  ∃ x y, Date_of (Task.updatedAt a) = Time x
         ∧ Date_of (Task.updatedAt b) = Time y ∧ y <= x.

(** The row one round of [syncTasks] leaves under the id of [remoteTask],
    given the row [old] found there. *)
Definition rowAfter (old : option Task.t) (remoteTask : Task.t) : option Task.t :=
  if Task.deleted remoteTask then None
  else
    match old with
    | None => Some (Task.with_synced true remoteTask)
    | Some localTask =>
        if date_gt (Date_or0 (Task.updatedAt remoteTask))
                   (Date_or0 (Task.updatedAt localTask))
        then Some (Task.with_synced true remoteTask)
        else Some localTask
    end.

(** * Properties *)

(** ** Facts about the built-ins *)

Section MapFacts.
Context {K : Type} `{EqDecision K} {V : Type}.
Implicit Types (k : K) (v : V) (m es : list (K * V)).

Lemma Map_get_set_eq k v m : Map_get k (Map_set k v m) = Some v.
Proof.
  induction m as [|[k' v'] m IH]; simpl.
  - by rewrite decide_True.
  - destruct (decide (k = k')) as [->|Hne]; simpl.
    + by rewrite decide_True.
    + by rewrite decide_False.
Qed.

Lemma Map_get_set_ne k k' v m :
  k ≠ k' → Map_get k' (Map_set k v m) = Map_get k' m.
Proof.
  intros Hne. induction m as [|[k0 v0] m IH]; simpl.
  - by rewrite decide_False.
  - destruct (decide (k = k0)) as [->|Hne0]; simpl.
    + by rewrite !decide_False.
    + by rewrite IH.
Qed.

Lemma Map_set_fresh k v m : k ∉ Map_keys m → Map_set k v m = m ++ [(k, v)].
Proof.
  unfold Map_keys. induction m as [|[k0 v0] m IH]; simpl; [done|].
  rewrite not_elem_of_cons. intros [Hne Hnot].
  rewrite decide_False by done. by rewrite IH.
Qed.

Lemma Map_keys_set k v m :
  Map_keys (Map_set k v m)
  = if decide (k ∈ Map_keys m) then Map_keys m else Map_keys m ++ [k].
Proof.
  unfold Map_keys. induction m as [|[k0 v0] m IH].
  - simpl. destruct (decide (k ∈ [])) as [Hin|_]; [|done].
    by apply elem_of_nil in Hin.
  - simpl Map_set. destruct (decide (k = k0)) as [->|Hne].
    + rewrite decide_True; [done|]. by left.
    + rewrite fmap_cons, IH. destruct (decide (k ∈ m.*1)) as [Hin|Hnin].
      * rewrite decide_True; [done|]. by right.
      * rewrite decide_False; [done|].
        rewrite fmap_cons, not_elem_of_cons. done.
Qed.

Lemma Map_new_snoc es k v :
  Map_new (es ++ [(k, v)]) = Map_set k v (Map_new es).
Proof. unfold Map_new. by rewrite foldl_app. Qed.

Lemma Map_keys_new_elem es k : k ∈ Map_keys (Map_new es) ↔ k ∈ es.*1.
Proof.
  induction es as [|[k0 v0] es IH] using rev_ind.
  - done.
  - rewrite Map_new_snoc, Map_keys_set, fmap_app, elem_of_app. simpl.
    rewrite list_elem_of_singleton.
    destruct (decide (k0 ∈ Map_keys (Map_new es))) as [Hin|Hnin].
    + rewrite IH. split; [by left|]. intros [?| ->]; [done|]. by apply IH.
    + rewrite elem_of_app, list_elem_of_singleton, IH. done.
Qed.

Lemma Map_keys_new_NoDup es : NoDup (Map_keys (Map_new es)).
Proof.
  induction es as [|[k0 v0] es IH] using rev_ind.
  - constructor.
  - rewrite Map_new_snoc, Map_keys_set. case_decide; [done|].
    apply NoDup_app. split_and!; [done| |apply NoDup_singleton].
    intros x Hx ->%list_elem_of_singleton. done.
Qed.

(** Building a map from entries keeps, for each key, the value of its
    last entry. *)
Lemma Map_get_new es k : Map_get k (Map_new es) = Map_get k (reverse es).
Proof.
  induction es as [|[k0 v0] es IH] using rev_ind.
  - done.
  - rewrite Map_new_snoc, reverse_snoc. simpl.
    destruct (decide (k = k0)) as [->|Hne].
    + apply Map_get_set_eq.
    + rewrite Map_get_set_ne by done. done.
Qed.

Lemma Map_get_Some m k v :
  Map_get k m = Some v ↔ ∃ m1 m2, m = m1 ++ (k, v) :: m2 ∧ k ∉ m1.*1.
Proof.
  induction m as [|[k0 v0] m IH]; simpl.
  - split; [done|]. intros ([|? ?] & ? & ? & ?); done.
  - destruct (decide (k = k0)) as [->|Hne].
    + split.
      * intros [= ->]. exists [], m. split; [done|]. simpl. apply not_elem_of_nil.
      * intros ([|[k1 v1] m1] & m2 & Heq & Hnot); simpl in *.
        -- by injection Heq as -> ->.
        -- injection Heq as -> -> ->. exfalso. apply Hnot. by left.
    + rewrite IH. split.
      * intros (m1 & m2 & -> & Hnot). exists ((k0, v0) :: m1), m2.
        split; [done|]. simpl. rewrite not_elem_of_cons. done.
      * intros ([|[k1 v1] m1] & m2 & Heq & Hnot); simpl in *.
        -- injection Heq as -> ->. done.
        -- injection Heq as -> -> ->. exists m1, m2. split; [done|].
           rewrite not_elem_of_cons in Hnot. tauto.
Qed.

Lemma Map_get_is_Some m k : is_Some (Map_get k m) ↔ k ∈ Map_keys m.
Proof.
  unfold Map_keys. induction m as [|[k0 v0] m IH]; simpl.
  - rewrite elem_of_nil. split; [by intros [? ?]|done].
  - rewrite elem_of_cons. destruct (decide (k = k0)) as [->|Hne].
    + split; [by left|by eauto].
    + rewrite IH. tauto.
Qed.

Lemma Map_get_None m k : Map_get k m = None ↔ k ∉ Map_keys m.
Proof. rewrite <-Map_get_is_Some, eq_None_not_Some. done. Qed.

(** The last entry for a key, as a decomposition of the entry list. *)
Lemma Map_get_new_Some es k v :
  Map_get k (Map_new es) = Some v
  ↔ ∃ es1 es2, es = es1 ++ (k, v) :: es2 ∧ k ∉ es2.*1.
Proof.
  rewrite Map_get_new, Map_get_Some. split.
  - intros (m1 & m2 & Heq & Hnot). exists (reverse m2), (reverse m1).
    split.
    + rewrite <-(reverse_involutive es), Heq, reverse_app, reverse_cons.
      by rewrite <-app_assoc.
    + by rewrite fmap_reverse, elem_of_reverse.
  - intros (es1 & es2 & -> & Hnot). exists (reverse es2), (reverse es1).
    split.
    + rewrite reverse_app, reverse_cons. by rewrite <-app_assoc.
    + by rewrite fmap_reverse, elem_of_reverse.
Qed.

(** Entries without a repeated key are stored as they come. *)
Lemma Map_new_NoDup es : NoDup es.*1 → Map_new es = es.
Proof.
  induction es as [|[k0 v0] es IH] using rev_ind; [done|].
  rewrite fmap_app, NoDup_app. simpl. intros (Hnd & Hfresh & _).
  rewrite Map_new_snoc, IH by done.
  apply Map_set_fresh. intros Hin. apply (Hfresh k0 Hin). by left.
Qed.
End MapFacts.

Section SetFacts.
Context {K : Type} `{EqDecision K}.
Implicit Types (x : K) (xs acc : list K).

Lemma foldl_Set_add_elem xs acc x :
  x ∈ foldl Set_add acc xs ↔ x ∈ acc ∨ x ∈ xs.
Proof.
  revert acc. induction xs as [|y xs IH]; intros acc; simpl.
  - rewrite elem_of_nil. tauto.
  - rewrite IH, elem_of_cons. unfold Set_add. case_decide.
    + split; [tauto|]. intros [?|[->|?]]; tauto.
    + rewrite elem_of_app, list_elem_of_singleton. tauto.
Qed.

Lemma foldl_Set_add_NoDup xs acc : NoDup acc → NoDup (foldl Set_add acc xs).
Proof.
  revert acc. induction xs as [|y xs IH]; intros acc Hnd; simpl; [done|].
  apply IH. unfold Set_add. case_decide; [done|].
  apply NoDup_app. split_and!; [done| |apply NoDup_singleton].
  intros x Hx ->%list_elem_of_singleton. done.
Qed.

Lemma foldl_Set_add_known xs acc :
  (∀ x, x ∈ xs → x ∈ acc) → foldl Set_add acc xs = acc.
Proof.
  revert acc. induction xs as [|y xs IH]; intros acc Hsub; simpl; [done|].
  unfold Set_add at 2. rewrite decide_True by (apply Hsub; by left).
  apply IH. intros x Hx. apply Hsub. by right.
Qed.

Lemma foldl_Set_add_fresh xs acc :
  NoDup (acc ++ xs) → foldl Set_add acc xs = acc ++ xs.
Proof.
  revert acc. induction xs as [|y xs IH]; intros acc Hnd; simpl.
  - by rewrite app_nil_r.
  - unfold Set_add at 2. rewrite decide_False.
    + rewrite IH; rewrite <-app_assoc; done.
    + apply NoDup_app in Hnd as (_ & Hfresh & _).
      intros Hin. apply (Hfresh y Hin). by left.
Qed.

Lemma Set_new_elem xs x : x ∈ Set_new xs ↔ x ∈ xs.
Proof. unfold Set_new. rewrite foldl_Set_add_elem, elem_of_nil. tauto. Qed.

Lemma Set_new_NoDup xs : NoDup (Set_new xs).
Proof. apply foldl_Set_add_NoDup. constructor. Qed.

Lemma Set_new_twice xs : NoDup xs → Set_new (xs ++ xs) = xs.
Proof.
  intros Hnd. unfold Set_new. rewrite foldl_app.
  rewrite (foldl_Set_add_fresh xs []) by done. simpl.
  by apply foldl_Set_add_known.
Qed.
End SetFacts.

Section SortFacts.
Context {A : Type} (cmp : A → A → option Z).

Lemma sort_insert_Permutation x l : sort_insert cmp x l ≡ₚ x :: l.
Proof.
  induction l as [|y l IH]; simpl; [done|].
  destruct (sort_keeps cmp x y); [done|].
  rewrite IH. apply Permutation_swap.
Qed.

Lemma Array_sort_Permutation l : Array_sort cmp l ≡ₚ l.
Proof.
  induction l as [|x l IH]; simpl; [done|].
  by rewrite sort_insert_Permutation, IH.
Qed.

(** Sorting a list that is already in order leaves it as it is. *)
Lemma Array_sort_in_order l : in_order cmp l → Array_sort cmp l = l.
Proof.
  induction 1 as [|x l Hs IH Hhd]; simpl; [done|].
  rewrite IH. destruct Hhd as [|y l Hxy]; simpl; [done|]. by rewrite Hxy.
Qed.

Hypothesis cmp_asym :
  ∀ a b, sort_keeps cmp a b = false → sort_keeps cmp b a = true.

Lemma sort_insert_in_order x l :
  in_order cmp l → in_order cmp (sort_insert cmp x l).
Proof.
  unfold in_order. induction 1 as [|y l Hs IH Hhd]; simpl.
  - repeat constructor.
  - destruct (sort_keeps cmp x y) eqn:Hxy.
    + repeat constructor; done.
    + constructor; [done|].
      destruct Hhd as [|z l Hyz]; simpl.
      * constructor. by apply cmp_asym.
      * destruct (sort_keeps cmp x z); constructor; [|done].
        by apply cmp_asym.
Qed.

Lemma Array_sort_is_in_order l : in_order cmp (Array_sort cmp l).
Proof.
  induction l as [|x l IH]; simpl; [constructor|].
  by apply sort_insert_in_order.
Qed.
End SortFacts.

(** ** Facts about the merge *)

Section MergeFacts.
Implicit Types (l : list Task.t) (t : Task.t) (k : Z).

Local Abbreviation entry := (fun task : Task.t => (Task.id task, task)).
Local Abbreviation index l := (Map_new (entry <$> l)).

Lemma entries_keys l : (entry <$> l).*1 = Task.id <$> l.
Proof. by rewrite <-list_fmap_compose. Qed.

Lemma index_keys_elem l k : k ∈ Map_keys (index l) ↔ k ∈ Task.id <$> l.
Proof. by rewrite Map_keys_new_elem, entries_keys. Qed.

(** The record indexed under an id is the last record of the list with
    that id. *)
Lemma index_get_Some l k t :
  Map_get k (index l) = Some t
  ↔ ∃ l1 l2, l = l1 ++ t :: l2 ∧ Task.id t = k ∧ k ∉ Task.id <$> l2.
Proof.
  rewrite Map_get_new_Some. split.
  - intros (es1 & es2 & Heq & Hnot).
    apply fmap_app_inv in Heq as (l1 & l2' & -> & Heq & ->).
    symmetry in Heq. apply fmap_cons_inv in Heq as (t' & l2 & Hhd & -> & ->).
    injection Hhd as Hid ->. exists l1, l2.
    by rewrite <-entries_keys.
  - intros (l1 & l2 & -> & <- & Hnot). exists (entry <$> l1), (entry <$> l2).
    split; [by rewrite fmap_app|]. by rewrite entries_keys.
Qed.

Lemma index_get_id l k t : Map_get k (index l) = Some t → Task.id t = k.
Proof. rewrite index_get_Some. by intros (_ & _ & _ & ? & _). Qed.

Lemma index_get_elem l k t : Map_get k (index l) = Some t → t ∈ l.
Proof.
  rewrite index_get_Some. intros (l1 & l2 & -> & _ & _).
  rewrite elem_of_app, elem_of_cons. tauto.
Qed.

Lemma index_NoDup l : NoDup (Task.id <$> l) → index l = entry <$> l.
Proof. intros Hnd. apply Map_new_NoDup. by rewrite entries_keys. Qed.

Lemma index_get_NoDup l t :
  NoDup (Task.id <$> l) → t ∈ l → Map_get (Task.id t) (index l) = Some t.
Proof.
  intros Hnd Hin. apply index_get_Some.
  apply list_elem_of_split in Hin as (l1 & l2 & ->).
  exists l1, l2. split_and!; [done..|].
  rewrite fmap_app, fmap_cons in Hnd.
  apply NoDup_app in Hnd as (_ & _ & Hnd). by apply NoDup_cons in Hnd as [? _].
Qed.

Lemma resolveConflict_cases t1 t2 :
  resolveConflict t1 t2 = t1 ∨ resolveConflict t1 t2 = t2.
Proof. unfold resolveConflict. repeat case_match; auto. Qed.

Lemma resolveConflict_self t : resolveConflict t t = t.
Proof. unfold resolveConflict. by repeat case_match. Qed.

(** The ids looped over are the ids of the two inputs. *)
Lemma allIds_elem l1 l2 k :
  k ∈ Set_new (Map_keys (index l1) ++ Map_keys (index l2))
  ↔ k ∈ Task.id <$> l1 ∨ k ∈ Task.id <$> l2.
Proof. by rewrite Set_new_elem, elem_of_app, !index_keys_elem. Qed.

(** Each id looped over pushes one record, and that record has this id. *)
Lemma mergeOne_id l1 l2 k t :
  mergeOne (index l1) (index l2) k = Some t → Task.id t = k.
Proof.
  unfold mergeOne.
  destruct (Map_get k (index l1)) as [a|] eqn:Ha;
    destruct (Map_get k (index l2)) as [b|] eqn:Hb; intros [= <-].
  - apply index_get_id in Ha, Hb.
    destruct (resolveConflict_cases a b) as [-> | ->]; done.
  - by apply index_get_id in Ha.
  - by apply index_get_id in Hb.
Qed.

Lemma mergeOne_is_Some l1 l2 k :
  k ∈ Task.id <$> l1 ∨ k ∈ Task.id <$> l2 →
  is_Some (mergeOne (index l1) (index l2) k).
Proof.
  rewrite <-!index_keys_elem, <-!Map_get_is_Some. unfold mergeOne.
  intros [[a ->] | [b ->]]; [|destruct (Map_get k (index l1))]; eauto.
  destruct (Map_get k (index l2)); eauto.
Qed.

Lemma omap_ids (f : Z → option Task.t) (ks : list Z) :
  (∀ k, k ∈ ks → ∃ t, f k = Some t ∧ Task.id t = k) →
  Task.id <$> omap f ks = ks.
Proof.
  induction ks as [|k ks IH]; intros Hf; [done|].
  destruct (Hf k) as (t & Heq & Hid); [by left|].
  simpl. rewrite Heq. rewrite fmap_cons. f_equal; [done|].
  apply IH. intros k' Hk'. apply Hf. by right.
Qed.

Lemma omap_fmap_id (f : Z → option Task.t) l :
  (∀ t, t ∈ l → f (Task.id t) = Some t) → omap f (Task.id <$> l) = l.
Proof.
  induction l as [|t l IH]; intros Hf; [done|].
  rewrite fmap_cons. simpl. rewrite Hf by (by left).
  f_equal. apply IH. intros t' Ht'. apply Hf. by right.
Qed.

(** Before sorting, the merged list carries the looped-over ids, in the
    order of the loop. *)
Lemma mergedTasks_ids l1 l2 :
  let allIds := Set_new (Map_keys (index l1) ++ Map_keys (index l2)) in
  Task.id <$> omap (mergeOne (index l1) (index l2)) allIds = allIds.
Proof.
  intros allIds. apply omap_ids. intros k Hk.
  apply allIds_elem in Hk.
  destruct (mergeOne_is_Some l1 l2 k Hk) as [t Ht].
  exists t. split; [done|]. by eapply mergeOne_id.
Qed.

Lemma mergeData_ids_Permutation l1 l2 :
  Task.id <$> mergeData l1 l2
  ≡ₚ Set_new (Map_keys (index l1) ++ Map_keys (index l2)).
Proof.
  unfold mergeData. rewrite Array_sort_Permutation. by rewrite mergedTasks_ids.
Qed.

Lemma mergeData_ids_NoDup l1 l2 : NoDup (Task.id <$> mergeData l1 l2).
Proof. rewrite mergeData_ids_Permutation. apply Set_new_NoDup. Qed.

Lemma mergeData_ids_elem l1 l2 k :
  k ∈ Task.id <$> mergeData l1 l2 ↔ k ∈ Task.id <$> l1 ∨ k ∈ Task.id <$> l2.
Proof. by rewrite mergeData_ids_Permutation, allIds_elem. Qed.

(** The records of the output are the records pushed by the loop. *)
Lemma mergeData_elem l1 l2 t :
  t ∈ mergeData l1 l2
  ↔ mergeOne (index l1) (index l2) (Task.id t) = Some t.
Proof.
  unfold mergeData. rewrite Array_sort_Permutation, list_elem_of_omap. split.
  - intros (k & _ & Hk). by rewrite (mergeOne_id _ _ _ _ Hk).
  - intros Ht. exists (Task.id t). split; [|done].
    apply allIds_elem.
    destruct (decide (Task.id t ∈ Task.id <$> l1)) as [|Hn1]; [by left|].
    destruct (decide (Task.id t ∈ Task.id <$> l2)) as [|Hn2]; [by right|].
    exfalso. unfold mergeOne in Ht.
    rewrite <-index_keys_elem, <-Map_get_None in Hn1, Hn2.
    by rewrite Hn1, Hn2 in Ht.
Qed.

Lemma byUpdatedAtDesc_asym a b :
  sort_keeps byUpdatedAtDesc a b = false → sort_keeps byUpdatedAtDesc b a = true.
Proof.
  unfold sort_keeps, byUpdatedAtDesc.
  destruct (Date_of (Task.updatedAt a)), (Date_of (Task.updatedAt b));
    simpl; try done.
  intros H%Z.leb_gt. apply Z.leb_le. lia.
Qed.

Lemma mergeData_in_order l1 l2 : in_order byUpdatedAtDesc (mergeData l1 l2).
Proof. apply Array_sort_is_in_order, byUpdatedAtDesc_asym. Qed.

(** Merging a list with itself gives the list back, when it has one
    record per id and is in the order the sort leaves. *)
Lemma mergeData_self l :
  NoDup (Task.id <$> l) → in_order byUpdatedAtDesc l → mergeData l l = l.
Proof.
  intros Hnd Hord. unfold mergeData.
  assert (Hkeys : Map_keys (index l) = Task.id <$> l).
  { rewrite index_NoDup by done. apply entries_keys. }
  rewrite Hkeys, Set_new_twice by done.
  rewrite omap_fmap_id; [by apply Array_sort_in_order|].
  intros t Ht. unfold mergeOne. rewrite index_get_NoDup by done.
  by rewrite resolveConflict_self.
Qed.

Lemma filter_id_absent l k :
  k ∉ Task.id <$> l → filter (fun t => Task.id t = k) l = [].
Proof.
  induction l as [|t l IH]; simpl; [done|].
  rewrite not_elem_of_cons. intros [Hne Hnot].
  rewrite filter_cons_False by done. by apply IH.
Qed.

Lemma filter_id_once l k :
  NoDup (Task.id <$> l) → k ∈ Task.id <$> l →
  length (filter (fun t => Task.id t = k) l) = 1%nat.
Proof.
  induction l as [|t l IH]; simpl.
  - intros _ Hin. by apply elem_of_nil in Hin.
  - rewrite NoDup_cons, elem_of_cons. intros [Hfresh Hnd] Hin.
    destruct (decide (Task.id t = k)) as [Heq|Hne].
    + rewrite filter_cons_True by done. simpl.
      rewrite filter_id_absent; [done|]. by rewrite <-Heq.
    + rewrite filter_cons_False by done. apply IH; [done|].
      destruct Hin as [->|Hin]; done.
Qed.
End MergeFacts.

(** ** Conflict resolution *)

(** C1. For a local and a remote record of one id, conflict resolution
    returns the record whose [updatedAt] is strictly later, and the local
    record when both denote the same instant; it also returns the local
    record whenever the two [updatedAt] fields are equal. *)
Theorem C1_newer_wins_local_on_tie (localTask remoteTask : Task.t) :
  (∀ tl tr : Z,
      Date_or0 (Task.updatedAt localTask) = Time tl →
      Date_or0 (Task.updatedAt remoteTask) = Time tr →
      (tr < tl → resolveConflict localTask remoteTask = localTask) ∧
      (tl < tr → resolveConflict localTask remoteTask = remoteTask) ∧
      (tl = tr → resolveConflict localTask remoteTask = localTask)) ∧
  (Task.updatedAt localTask = Task.updatedAt remoteTask →
   resolveConflict localTask remoteTask = localTask).
Proof.
  unfold resolveConflict. split.
  - intros tl tr -> ->. simpl. split_and!; intros Hcmp.
    + by rewrite (proj2 (Z.ltb_lt tr tl)).
    + rewrite (proj2 (Z.ltb_ge tr tl)) by lia.
      by rewrite (proj2 (Z.ltb_lt tl tr)).
    + subst. by rewrite Z.ltb_irrefl.
  - intros ->. by repeat case_match.
Qed.

Lemma C1_witness :
  resolveConflict (sampleTask 1 "A" (At 10)) (sampleTask 1 "B" (At 11))
  = sampleTask 1 "B" (At 11)
  ∧ resolveConflict (sampleTask 1 "A" (At 11)) (sampleTask 1 "B" (At 10))
    = sampleTask 1 "A" (At 11)
  ∧ resolveConflict (sampleTask 1 "A" (At 10)) (sampleTask 1 "B" (At 10))
    = sampleTask 1 "A" (At 10).
Proof.
  split_and!.
  - destruct (C1_newer_wins_local_on_tie
                (sampleTask 1 "A" (At 10)) (sampleTask 1 "B" (At 11)))
      as [Hcmp _].
    destruct (Hcmp 10 11 eq_refl eq_refl) as (_ & Hnewer & _).
    apply Hnewer. lia.
  - destruct (C1_newer_wins_local_on_tie
                (sampleTask 1 "A" (At 11)) (sampleTask 1 "B" (At 10)))
      as [Hcmp _].
    destruct (Hcmp 11 10 eq_refl eq_refl) as (Hnewer & _ & _).
    apply Hnewer. lia.
  - destruct (C1_newer_wins_local_on_tie
                (sampleTask 1 "A" (At 10)) (sampleTask 1 "B" (At 10)))
      as [_ Htie].
    apply Htie. reflexivity.
Defined.

(** The record conflict resolution picks is the one the merge puts out for
    a shared id, when neither input repeats an id. *)
Lemma mergeData_shared_id (localTasks remoteTasks : list Task.t)
    (localTask remoteTask : Task.t) :
  NoDup (Task.id <$> localTasks) → NoDup (Task.id <$> remoteTasks) →
  localTask ∈ localTasks → remoteTask ∈ remoteTasks →
  Task.id localTask = Task.id remoteTask →
  resolveConflict localTask remoteTask ∈ mergeData localTasks remoteTasks.
Proof.
  intros Hl Hr Hinl Hinr Hid. apply mergeData_elem.
  assert (Task.id (resolveConflict localTask remoteTask) = Task.id localTask)
    as -> by (destruct (resolveConflict_cases localTask remoteTask)
                as [-> | ->]; done).
  unfold mergeOne. rewrite index_get_NoDup by done.
  rewrite Hid, index_get_NoDup by done. done.
Qed.

(** C10. A record whose [updatedAt] is missing or otherwise falsy is
    compared as if stamped with the epoch: against it a record stamped after
    the epoch wins on either side, a record stamped at the epoch or before
    it does not displace the local one, and two records without [updatedAt]
    resolve to the local one. *)
Theorem C10_missing_updatedAt_is_epoch (localTask remoteTask : Task.t) :
  (truthy (Task.updatedAt localTask) = false →
   Date_or0 (Task.updatedAt localTask) = Time 0 ∧
   ∀ t, Task.updatedAt remoteTask = At t →
        (0 < t → resolveConflict localTask remoteTask = remoteTask) ∧
        (t <= 0 → resolveConflict localTask remoteTask = localTask)) ∧
  (truthy (Task.updatedAt remoteTask) = false →
   Date_or0 (Task.updatedAt remoteTask) = Time 0 ∧
   ∀ t, Task.updatedAt localTask = At t →
        (0 < t → resolveConflict localTask remoteTask = localTask) ∧
        (t < 0 → resolveConflict localTask remoteTask = remoteTask)) ∧
  (truthy (Task.updatedAt localTask) = false →
   truthy (Task.updatedAt remoteTask) = false →
   resolveConflict localTask remoteTask = localTask).
Proof.
  unfold resolveConflict, Date_or0. split_and!.
  - intros ->. split; [done|]. intros t ->. simpl. split; intros Ht.
    + rewrite (proj2 (Z.ltb_ge t 0)) by lia. by rewrite (proj2 (Z.ltb_lt 0 t)).
    + rewrite (proj2 (Z.ltb_ge 0 t)) by lia. by case_match.
  - intros ->. split; [done|]. intros t ->. simpl. split; intros Ht.
    + by rewrite (proj2 (Z.ltb_lt 0 t)).
    + rewrite (proj2 (Z.ltb_ge 0 t)) by lia. by rewrite (proj2 (Z.ltb_lt t 0)).
  - by intros -> ->.
Qed.

Lemma C10_witness :
  resolveConflict (sampleTask 1 "A" Missing) (sampleTask 1 "B" (At 1))
  = sampleTask 1 "B" (At 1)
  ∧ resolveConflict (sampleTask 1 "A" (At 1)) (sampleTask 1 "B" Missing)
    = sampleTask 1 "A" (At 1)
  ∧ resolveConflict (sampleTask 1 "A" Missing) (sampleTask 1 "B" Null)
    = sampleTask 1 "A" Missing.
Proof.
  split_and!.
  - destruct (C10_missing_updatedAt_is_epoch
                (sampleTask 1 "A" Missing) (sampleTask 1 "B" (At 1)))
      as (Hlocal & _ & _).
    destruct (Hlocal eq_refl) as [_ Hcmp].
    destruct (Hcmp 1 eq_refl) as [Hlater _]. apply Hlater. lia.
  - destruct (C10_missing_updatedAt_is_epoch
                (sampleTask 1 "A" (At 1)) (sampleTask 1 "B" Missing))
      as (_ & Hremote & _).
    destruct (Hremote eq_refl) as [_ Hcmp].
    destruct (Hcmp 1 eq_refl) as [Hlater _]. apply Hlater. lia.
  - destruct (C10_missing_updatedAt_is_epoch
                (sampleTask 1 "A" Missing) (sampleTask 1 "B" Null))
      as (_ & _ & Hboth).
    apply Hboth; reflexivity.
Defined.

(** ** The merge *)

Example mergeData_demo :
  mergeData [sampleTask 1 "A" (At 10)]
            [sampleTask 1 "B" (At 11); sampleTask 2 "C" (At 10)]
  = [sampleTask 1 "B" (At 11); sampleTask 2 "C" (At 10)].
Proof. reflexivity. Qed.

(** C4. Merging the output of a merge with itself gives that output back,
    record for record and in the same order. *)
Theorem C4_merge_idempotent (A B : list Task.t) :
  mergeData (mergeData A B) (mergeData A B) = mergeData A B.
Proof.
  apply mergeData_self.
  - apply mergeData_ids_NoDup.
  - apply mergeData_in_order.
Qed.

(** C5. An id carried by a record of either input is carried by exactly one
    record of the merged output. *)
Theorem C5_union_completeness (localTasks remoteTasks : list Task.t) (i : Z) :
  i ∈ Task.id <$> localTasks ∨ i ∈ Task.id <$> remoteTasks →
  length (filter (fun t => Task.id t = i) (mergeData localTasks remoteTasks))
  = 1%nat.
Proof.
  intros Hin. apply filter_id_once.
  - apply mergeData_ids_NoDup.
  - by apply mergeData_ids_elem.
Qed.

Lemma C5_witness :
  length (filter (fun t => Task.id t = 1)
            (mergeData [sampleTask 1 "A" (At 10)]
                       [sampleTask 1 "B" (At 11); sampleTask 2 "C" (At 10)]))
  = 1%nat.
Proof.
  apply (C5_union_completeness [sampleTask 1 "A" (At 10)]
           [sampleTask 1 "B" (At 11); sampleTask 2 "C" (At 10)] 1).
  left. simpl. apply list_elem_of_here.
Defined.

(** C7, as the code has it.  With an empty local list the merge puts out
    the remote records deduplicated by id, and of the records that share an
    id it keeps the one that comes last in the remote list; the output has
    one record per id and is in the order of the final sort. *)
Theorem C7_empty_local_keeps_last (remoteTasks : list Task.t) :
  (∀ t, t ∈ mergeData [] remoteTasks
        ↔ ∃ l1 l2, remoteTasks = l1 ++ t :: l2 ∧ Task.id t ∉ Task.id <$> l2) ∧
  NoDup (Task.id <$> mergeData [] remoteTasks) ∧
  in_order byUpdatedAtDesc (mergeData [] remoteTasks).
Proof.
  split_and!; [|apply mergeData_ids_NoDup|apply mergeData_in_order].
  intros t. rewrite mergeData_elem. unfold mergeOne. simpl.
  rewrite index_get_Some. split.
  - intros (l1 & l2 & -> & _ & Hnot). by exists l1, l2.
  - intros (l1 & l2 & -> & Hnot). by exists l1, l2.
Qed.

(** C7 as stated fails: of two remote records with one id the merge keeps
    the second, where first-seen deduplication keeps the first. *)
Lemma C7_first_seen_refuted :
  mergeData [] dupRemote = [sampleTask 1 "B" (At 10)]
  ∧ dedup_first_seen [] dupRemote = [sampleTask 1 "A" (At 10)]
  ∧ mergeData [] dupRemote ≠ dedup_first_seen [] dupRemote.
Proof. split_and!; [reflexivity | reflexivity | discriminate]. Qed.

(** ** The local record store *)

Lemma toArray_elem (db : gmap Z Task.t) (t : Task.t) :
  t ∈ TaskManager.toArray db ↔ ∃ k, db !! k = Some t.
Proof.
  unfold TaskManager.toArray. rewrite merge_sort_Permutation, list_elem_of_fmap.
  split.
  - intros ([k t'] & -> & Hin). exists k. by apply elem_of_map_to_list.
  - intros (k & Hk). exists (k, t). split; [done|]. by apply elem_of_map_to_list.
Qed.

(** Whatever the filter, [getAllTasks] returns stored records that are not
    tombstones. *)
Lemma getAllTasks_elem tza today filter (db : gmap Z Task.t) (t : Task.t) :
  t ∈ TaskManager.getAllTasks tza today filter db →
  Task.deleted t = false ∧ ∃ k, db !! k = Some t.
Proof.
  unfold TaskManager.getAllTasks. rewrite <-toArray_elem.
  repeat case_decide; rewrite !list_elem_of_In, !filter_In;
    rewrite negb_true_iff; tauto.
Qed.

(** No tombstone is among the local tasks a cycle reads for the merge. *)
Lemma cycle_reads_no_tombstone (w : World) (s : State) (t : Task.t)
    (localTasks : list Task.t) :
  (SyncManager.taskManager_getAllTasks w s).1 = Ok localTasks →
  Task.deleted t = true → t ∉ localTasks.
Proof.
  intros [= <-] Hdel Hin.
  apply getAllTasks_elem in Hin as [Hlive _]. congruence.
Qed.

(** C2, evaluated on the code.  With one tombstone stored locally and the
    same task still live remotely, the cycle reads an empty local list for
    the merge, writes the live remote record back, and leaves the tombstone
    in the table, marked synced. *)
Theorem C2_tombstones_not_read :
  (SyncManager.taskManager_getAllTasks
     (sampleWorld (Ok (Some remoteLive5)) true) (sampleState tombStore false)).1
  = Ok [] ∧
  writtenTasks
    (trace (SyncManager.syncWithGitHub
              (sampleWorld (Ok (Some remoteLive5)) true)
              (sampleState tombStore false)).2)
  = [[sampleTask 5 "X" (At 10)]] ∧
  tasks (SyncManager.syncWithGitHub
           (sampleWorld (Ok (Some remoteLive5)) true)
           (sampleState tombStore false)).2
  = {[ 5 := Task.with_synced true tombstone5 ]}.
Proof.
  split_and!; [reflexivity | reflexivity |].
  vm_compute. reflexivity.
Qed.

(** ** The sync cycle *)

(** Unfolds the monadic plumbing of the orchestrator's methods. *)
Ltac run_sync :=
  unfold SyncManager.syncWithGitHub, SyncManager.manualSync,
    SyncManager.updateDevicesList, SyncManager.taskManager_getAllTasks,
    SyncManager.taskManager_syncTasks, SyncManager.githubConfig_getData,
    SyncManager.githubConfig_saveData, SyncManager.getDeviceName,
    SyncManager.new_Date, SyncManager.log, SyncManager.updateSyncStatus,
    SyncManager.showNotification, SyncManager.updateLastSyncDisplay,
    try_catch_finally, mbind, M_bind, mret, M_ret, get, modify, lift;
  simpl.

(** A cycle either leaves the local state as it was, or has written a
    document to the remote store and been told the write succeeded. *)
Lemma syncWithGitHub_cases (w : World) (s : State) :
  let s' := (SyncManager.syncWithGitHub w s).2 in
  same_local s s' ∨
  ∃ doc r, saveData w doc = Ok r ∧ success r = true
           ∧ getData w ≠ Ok None
           ∧ trace s' = trace s ++ [EStatus syncing; ERead; EWrite doc;
                                    ELastSyncDisplay;
                                    ELog "Sincronización completada exitosamente" success_;
                                    ENotify "Datos sincronizados" success_;
                                    EStatus (if isOnline s then online else offline)]
           ∧ tasks s' = TaskManager.syncTasks (doc_tasks doc) (tasks s).
Proof.
  run_sync.
  destruct (negb (isConfigured w) || isSyncing s || negb (isOnline s));
    [by left|].
  destruct (getData w) as [[rd|]|msg] eqn:Hget; simpl; [|by left..].
  match goal with
  | |- context [saveData w ?d] =>
      destruct (saveData w d) as [[[] err]|msg] eqn:Hsave
  end; simpl; [|by left..].
  right. eexists _, _. split_and!; [exact Hsave|done|done| |done].
  by rewrite <-!app_assoc.
Qed.

(** A successful cycle brings the newer remote title and the unknown remote
    task into the table, all marked synced. *)
Example cycle_adopts_remote :
  tasks (SyncManager.syncWithGitHub (sampleWorld (Ok (Some remoteBC)) true)
           (sampleState storeA false)).2
  = {[ 1 := Task.with_synced true (sampleTask 1 "B" (At 11));
       2 := Task.with_synced true (sampleTask 2 "C" (At 10)) ]}.
Proof. vm_compute. reflexivity. Qed.

(** A successful cycle removes a task for which the remote document holds a
    newer tombstone. *)
Example cycle_applies_remote_tombstone :
  tasks (SyncManager.syncWithGitHub (sampleWorld (Ok (Some remoteTomb5)) true)
           (sampleState storeLive5 false)).2
  = ∅.
Proof. vm_compute. reflexivity. Qed.

(** C3. The cycle changes the task table, the [synced] flags in it and the
    persisted [lastSync] only after the remote write has reported success:
    when the remote read returns nothing, or the write does not report
    success, they are as before the cycle; and whenever one of them has
    changed, the cycle has read the remote store and then written to it,
    and the report of that write was a success. *)
Theorem C3_local_unchanged_unless_write_confirmed (w : World) (s : State) :
  let s' := (SyncManager.syncWithGitHub w s).2 in
  (getData w = Ok None ∨ (∀ doc r, saveData w doc = Ok r → success r = false) →
   tasks s' = tasks s ∧ stored_lastSync s' = stored_lastSync s
   ∧ lastSync s' = lastSync s) ∧
  (tasks s' ≠ tasks s ∨ stored_lastSync s' ≠ stored_lastSync s
   ∨ lastSync s' ≠ lastSync s →
   ∃ doc r after,
     trace s' = trace s ++ [EStatus syncing; ERead; EWrite doc] ++ after
     ∧ saveData w doc = Ok r ∧ success r = true).
Proof.
  intros s'. destruct (syncWithGitHub_cases w s) as [Hsame|Hwrote];
    fold s' in Hsame || fold s' in Hwrote.
  - split; [done|]. destruct Hsame as (? & ? & ?). intros [?|[?|?]]; done.
  - destruct Hwrote as (doc & r & Hsave & Hok & Hread & Htrace & _). split.
    + intros [Habsent | Hfail]; [done|].
      specialize (Hfail doc r Hsave). congruence.
    + intros _. eexists doc, r, _. split_and!; [|done..].
      rewrite Htrace. reflexivity.
Qed.

Lemma C3_witness :
  let absent := sampleWorld (Ok None) true in
  let refused := sampleWorld (Ok (Some remoteLive5)) false in
  let s := sampleState tombStore false in
  (tasks (SyncManager.syncWithGitHub absent s).2 = tasks s
   ∧ stored_lastSync (SyncManager.syncWithGitHub absent s).2 = None
   ∧ lastSync (SyncManager.syncWithGitHub absent s).2 = None) ∧
  (tasks (SyncManager.syncWithGitHub refused s).2 = tasks s
   ∧ stored_lastSync (SyncManager.syncWithGitHub refused s).2 = None
   ∧ lastSync (SyncManager.syncWithGitHub refused s).2 = None).
Proof.
  intros absent refused s. split.
  - apply (C3_local_unchanged_unless_write_confirmed absent s).
    left. reflexivity.
  - apply (C3_local_unchanged_unless_write_confirmed refused s).
    right. intros doc r [= <-]. reflexivity.
Defined.

(** C9. A manual sync requested while [isSyncing] is set logs one warning
    and does nothing else: the trace grows by that one entry, so there is no
    remote read and no remote write, and the task table, both [lastSync]
    values and the flag itself are as before. *)
Theorem C9_manual_sync_while_syncing (w : World) (s : State) :
  isSyncing s = true →
  let r := SyncManager.manualSync w s in
  r.1 = Ok tt ∧
  trace r.2 = trace s ++ [ELog "Ya se está sincronizando..." warning] ∧
  tasks r.2 = tasks s ∧ stored_lastSync r.2 = stored_lastSync s ∧
  lastSync r.2 = lastSync s ∧ isSyncing r.2 = true ∧ ticks r.2 = ticks s.
Proof. intros Hbusy. run_sync. rewrite Hbusy. simpl. by rewrite Hbusy. Qed.

Lemma C9_witness :
  let r := SyncManager.manualSync (sampleWorld (Ok (Some remoteLive5)) true)
             (sampleState tombStore true) in
  r.1 = Ok tt ∧
  trace r.2 = [ELog "Ya se está sincronizando..." warning] ∧
  tasks r.2 = tombStore ∧ stored_lastSync r.2 = None ∧
  lastSync r.2 = None ∧ isSyncing r.2 = true ∧ ticks r.2 = 0%nat.
Proof.
  apply (C9_manual_sync_while_syncing
           (sampleWorld (Ok (Some remoteLive5)) true)
           (sampleState tombStore true)).
  reflexivity.
Defined.

(** ** The device registry *)

Section Upsert.
Context {A : Type} (P : A → Prop) `{!∀ x, Decision (P x)}.
Implicit Types (l : list A) (x d : A).

(** The array after "replace the first entry satisfying [P], else push". *)
Local Abbreviation upserted l x :=
  (match list_find P l%list with
   | Some (i, _) => <[i:=x]> l%list
   | None => l%list ++ [x]
   end).

Lemma upserted_new l x : x ∈ upserted l x.
Proof.
  destruct (list_find P l) as [[i y]|] eqn:Hfind.
  - apply list_find_Some in Hfind as (Hi & _ & _).
    apply list_elem_of_insert. by eapply lookup_lt_Some.
  - apply elem_of_app. right. by apply list_elem_of_singleton.
Qed.

Lemma upserted_lookup_other l x j d :
  l !! j = Some d → ¬ P d → upserted l x !! j = Some d.
Proof.
  intros Hj Hd. destruct (list_find P l) as [[i y]|] eqn:Hfind.
  - apply list_find_Some in Hfind as (Hi & Hy & _).
    rewrite list_lookup_insert_ne; [done|]. intros ->. congruence.
  - by apply lookup_app_l_Some.
Qed.

Lemma upserted_found l x d : d ∈ l → P d → is_Some (list_find P l).
Proof.
  intros Hin Hd. destruct (list_find P l) eqn:Hfind; [done|].
  exfalso. eapply list_find_None in Hfind.
  rewrite Forall_forall in Hfind. by apply (Hfind d).
Qed.

Lemma upserted_changed l x : x ∉ l → upserted l x ≠ l.
Proof.
  intros Hnot Heq. pose proof (upserted_new l x) as Hnew.
  rewrite Heq in Hnew. done.
Qed.
End Upsert.

(** What one call does: the array passed in after the call, and the array
    returned. *)
Lemma updateDevicesList_run (w : World) (s : State) (existingDevices : list Device.t) :
  let arr' :=
    match list_find (fun d => Device.id d = deviceId s) existingDevices with
    | Some (i, _) => <[i:=selfDevice w s]> existingDevices
    | None => existingDevices ++ [selfDevice w s]
    end in
  (SyncManager.updateDevicesList w existingDevices s).1
  = Ok (arr', List.filter (fun device =>
                 date_gt (Date_of (Device.lastSeen device))
                         (Time (pruneCutoff w s))) arr').
Proof. done. Qed.

(** What a call leaves in the list it was given, and what it returns. *)
Lemma updateDevicesList_spec (w : World) (s : State)
    (existingDevices : list Device.t) :
  ∃ arr' out,
    (SyncManager.updateDevicesList w existingDevices s).1 = Ok (arr', out) ∧
    selfDevice w s ∈ arr' ∧
    (∀ i d, existingDevices !! i = Some d → Device.id d ≠ deviceId s →
            arr' !! i = Some d) ∧
    (selfDevice w s ∉ existingDevices → arr' ≠ existingDevices) ∧
    (∀ d, d ∈ out ↔ d ∈ arr' ∧ ∃ seen, Date_of (Device.lastSeen d) = Time seen
                                       ∧ pruneCutoff w s < seen).
Proof.
  eexists _, _. split; [apply updateDevicesList_run|]. split_and!.
  - apply (upserted_new (fun d => Device.id d = deviceId s)).
  - intros i d Hi Hd.
    by apply (upserted_lookup_other (fun d => Device.id d = deviceId s)).
  - apply (upserted_changed (fun d => Device.id d = deviceId s)).
  - intros d. rewrite list_elem_of_In, filter_In, <-list_elem_of_In.
    destruct (Date_of (Device.lastSeen d)) as [|seen]; simpl.
    + split; [by intros [_ ?]|]. by intros (_ & ? & ? & _).
    + rewrite Z.ltb_lt. split.
      * intros [? ?]. eauto.
      * intros (? & ? & [= <-] & ?). done.
Qed.

(** The result of a call is fixed by the list, the device id, the stored
    name, the online flag, the first clock reading and the cutoff. *)
Lemma updateDevicesList_inputs (w w2 : World) (s s2 : State)
    (existingDevices : list Device.t) :
  deviceId s2 = deviceId s → stored_deviceName s2 = stored_deviceName s →
  isOnline s2 = isOnline s → now w2 (ticks s2) = now w (ticks s) →
  pruneCutoff w2 s2 = pruneCutoff w s →
  (SyncManager.updateDevicesList w2 existingDevices s2).1
  = (SyncManager.updateDevicesList w existingDevices s).1.
Proof.
  intros Hid Hname Honline Hnow Hcut.
  rewrite !updateDevicesList_run, Hcut, Hid.
  unfold selfDevice, SyncManager.deviceNameOf.
  by rewrite Hid, Hname, Honline, Hnow.
Qed.

(** C6, as the code has it.  The upsert writes to the list it is given:
    after the call that list holds the self entry, every entry of another
    device where it was, and differs from what was passed in unless the
    self entry was already in it.  The list returned is a separate one, the
    entries of the written list seen after the cutoff.  Both are fixed by
    the list, the device id, the stored name, the online flag, the first
    clock reading and the cutoff. *)
Theorem C6_upsert_writes_its_input (w : World) (s : State)
    (existingDevices : list Device.t) :
  ∃ arr' out,
    (SyncManager.updateDevicesList w existingDevices s).1 = Ok (arr', out) ∧
    selfDevice w s ∈ arr' ∧
    (∀ i d, existingDevices !! i = Some d → Device.id d ≠ deviceId s →
            arr' !! i = Some d) ∧
    (selfDevice w s ∉ existingDevices → arr' ≠ existingDevices) ∧
    (∀ d, d ∈ out ↔ d ∈ arr' ∧ ∃ seen, Date_of (Device.lastSeen d) = Time seen
                                       ∧ pruneCutoff w s < seen) ∧
    (∀ w2 s2,
        deviceId s2 = deviceId s → stored_deviceName s2 = stored_deviceName s →
        isOnline s2 = isOnline s → now w2 (ticks s2) = now w (ticks s) →
        pruneCutoff w2 s2 = pruneCutoff w s →
        (SyncManager.updateDevicesList w2 existingDevices s2).1
        = Ok (arr', out)).
Proof.
  destruct (updateDevicesList_spec w s existingDevices)
    as (arr' & out & Hrun & Hself & Hothers & Hchanged & Hout).
  exists arr', out. split_and!; [done..|].
  intros w2 s2 Hid Hname Honline Hnow Hcut.
  by rewrite (updateDevicesList_inputs w w2 s s2).
Qed.

Lemma C6_witness :
  ∃ arr', (∃ out, (SyncManager.updateDevicesList (sampleWorld (Ok None) true) []
                     (sampleState ∅ false)).1 = Ok (arr', out))
          ∧ arr' ≠ [].
Proof.
  destruct (C6_upsert_writes_its_input (sampleWorld (Ok None) true)
              (sampleState ∅ false) [])
    as (arr' & out & Hrun & _ & _ & Hchanged & _).
  exists arr'. split; [by exists out|].
  apply Hchanged. apply not_elem_of_nil.
Defined.

(** C6 as stated fails: called on an empty list, the upsert leaves that
    list holding the self entry. *)
Lemma C6_input_list_mutated :
  (SyncManager.updateDevicesList (sampleWorld (Ok None) true) []
     (sampleState ∅ false)).1
  = Ok ([Device.mk "device-1700000000000-k3j9x2m1q" "Dispositivo-2m1q"
                   (At 1700000000000) true],
        [Device.mk "device-1700000000000-k3j9x2m1q" "Dispositivo-2m1q"
                   (At 1700000000000) true])
  ∧ [Device.mk "device-1700000000000-k3j9x2m1q" "Dispositivo-2m1q"
               (At 1700000000000) true] ≠ [].
Proof. split; [reflexivity | discriminate]. Qed.

Lemma pruneCutoff_bounds (w : World) (s : State) :
  let today := now w (S (ticks s)) in
  Z.abs (localTZA w today true
         - localTZA w (today + localTZA w today true - 7 * msPerDay) false)
  < msPerDay →
  today - 8 * msPerDay < pruneCutoff w s < today - 6 * msPerDay.
Proof. unfold pruneCutoff, setDate_back, msPerDay. simpl. lia. Qed.

(** C8. Take a zone whose UTC offset moves by less than a day over the week
    and a call that takes less than a day, and let [today] be the clock
    reading the cutoff is computed from.  No device last seen exactly eight
    days before [today] is in the list returned.  A device of the input
    last seen exactly six days before [today] is in it: as the entry itself
    when it is another device's, and in any case under its id (the entry of
    the synchronising device is replaced by a fresh one). *)
Theorem C8_device_pruning (w : World) (s : State)
    (existingDevices : list Device.t) :
  let today := now w (S (ticks s)) in
  Z.abs (localTZA w today true
         - localTZA w (today + localTZA w today true - 7 * msPerDay) false)
  < msPerDay →
  today - now w (ticks s) < msPerDay →
  ∃ arr' out,
    (SyncManager.updateDevicesList w existingDevices s).1 = Ok (arr', out) ∧
    (∀ d, Device.lastSeen d = At (today - 8 * msPerDay) → d ∉ out) ∧
    (∀ d, d ∈ existingDevices →
          Device.lastSeen d = At (today - 6 * msPerDay) →
          (Device.id d ≠ deviceId s → d ∈ out) ∧
          ∃ d', d' ∈ out ∧ Device.id d' = Device.id d).
Proof.
  intros today Hzone Hclock.
  pose proof (pruneCutoff_bounds w s Hzone) as Hcut. fold today in Hcut.
  destruct (updateDevicesList_spec w s existingDevices)
    as (arr' & out & Hrun & Hself & Hothers & _ & Hout).
  exists arr', out. split; [done|]. split.
  - intros d Hseen (_ & seen & Heq & Hlater)%Hout.
    rewrite Hseen in Heq. injection Heq as <-. lia.
  - intros d Hin Hseen.
    assert (Hother : Device.id d ≠ deviceId s → d ∈ out).
    { intros Hne. apply Hout. split.
      - apply list_elem_of_lookup in Hin as [i Hi].
        apply list_elem_of_lookup. exists i. by apply Hothers.
      - exists (today - 6 * msPerDay). split; [by rewrite Hseen|lia]. }
    split; [done|].
    destruct (decide (Device.id d = deviceId s)) as [Hid|Hne].
    + exists (selfDevice w s). split; [|by rewrite Hid].
      apply Hout. split; [done|].
      exists (now w (ticks s)). split; [done|]. unfold msPerDay in *. lia.
    + exists d. split; [by apply Hother|done].
Qed.

Lemma C8_witness :
  ∃ arr' out,
    (SyncManager.updateDevicesList (sampleWorld (Ok None) true)
       [sampleDevice "device-A" (sampleClock 1 - 8 * msPerDay);
        sampleDevice "device-B" (sampleClock 1 - 6 * msPerDay)]
       (sampleState ∅ false)).1 = Ok (arr', out)
    ∧ (sampleDevice "device-A" (sampleClock 1 - 8 * msPerDay) ∉ out)
    ∧ (sampleDevice "device-B" (sampleClock 1 - 6 * msPerDay) ∈ out).
Proof.
  destruct (C8_device_pruning (sampleWorld (Ok None) true)
              (sampleState ∅ false)
              [sampleDevice "device-A" (sampleClock 1 - 8 * msPerDay);
               sampleDevice "device-B" (sampleClock 1 - 6 * msPerDay)])
    as (arr' & out & Hrun & Habsent & Hpresent).
  - vm_compute. reflexivity.
  - vm_compute. reflexivity.
  - exists arr', out. split; [exact Hrun|]. split.
    + apply Habsent. reflexivity.
    + apply Hpresent.
      * apply list_elem_of_further, list_elem_of_here.
      * reflexivity.
      * discriminate.
Defined.

(** * Further properties of the code *)

(** ** The merge: where records come from, one-sided ids, order *)

Section MergeMore.
Implicit Types (l r : list Task.t) (t : Task.t) (k : Z).

Local Abbreviation entry := (fun task : Task.t => (Task.id task, task)).
Local Abbreviation index l := (Map_new (entry <$> l)).

Lemma mergeData_records_from_inputs_aux l r t :
  t ∈ mergeData l r → t ∈ l ∨ t ∈ r.
Proof.
  rewrite mergeData_elem. unfold mergeOne.
  destruct (Map_get (Task.id t) (index l)) as [a|] eqn:Ha;
    destruct (Map_get (Task.id t) (index r)) as [b|] eqn:Hb; intros [= <-].
  - apply index_get_elem in Ha, Hb.
    destruct (resolveConflict_cases a b) as [-> | ->]; auto.
  - left. by eapply index_get_elem.
  - right. by eapply index_get_elem.
Qed.

(** The merge passes records on unchanged: each record it puts out is a
    record of the local list or of the remote list. *)
Theorem mergeData_records_from_inputs l r t :
  t ∈ mergeData l r → t ∈ l ∨ t ∈ r.
Proof. apply mergeData_records_from_inputs_aux. Qed.

Lemma mergeData_records_from_inputs_witness :
  sampleTask 1 "B" (At 11) ∈ [sampleTask 1 "A" (At 10)]
  ∨ sampleTask 1 "B" (At 11)
    ∈ [sampleTask 1 "B" (At 11); sampleTask 2 "C" (At 10)].
Proof.
  apply (mergeData_records_from_inputs [sampleTask 1 "A" (At 10)]
           [sampleTask 1 "B" (At 11); sampleTask 2 "C" (At 10)]).
  vm_compute. apply list_elem_of_here.
Defined.

Lemma index_keys_elem_not l k :
  k ∉ Task.id <$> l → Map_get k (index l) = None.
Proof. intros Hnot. apply Map_get_None. by rewrite index_keys_elem. Qed.

(** A record whose id the other side does not have is put out as it is
    (given that its own list holds one record per id). *)
Theorem mergeData_keeps_unshared l r t :
  (NoDup (Task.id <$> l) → t ∈ l → Task.id t ∉ Task.id <$> r →
   t ∈ mergeData l r) ∧
  (NoDup (Task.id <$> r) → t ∈ r → Task.id t ∉ Task.id <$> l →
   t ∈ mergeData l r).
Proof.
  split; intros Hnd Hin Hnot; apply mergeData_elem; unfold mergeOne.
  - rewrite index_get_NoDup by done.
    apply index_keys_elem_not in Hnot. by rewrite Hnot.
  - apply index_keys_elem_not in Hnot. rewrite Hnot.
    by apply index_get_NoDup.
Qed.
Lemma mergeData_keeps_unshared_witness :
  sampleTask 2 "C" (At 10)
  ∈ mergeData [sampleTask 1 "A" (At 10)]
              [sampleTask 1 "B" (At 11); sampleTask 2 "C" (At 10)].
Proof.
  apply (mergeData_keeps_unshared [sampleTask 1 "A" (At 10)]
           [sampleTask 1 "B" (At 11); sampleTask 2 "C" (At 10)]).
  - apply (bool_decide_unpack _). vm_compute. reflexivity.
  - apply list_elem_of_further, list_elem_of_here.
  - apply (bool_decide_unpack _). vm_compute. reflexivity.
Defined.

(** With an empty list on one side, a list that holds one record per id
    comes out whole, in the order of the sort. *)
Theorem mergeData_empty_side l :
  NoDup (Task.id <$> l) →
  mergeData l [] = Array_sort byUpdatedAtDesc l ∧
  mergeData [] l = Array_sort byUpdatedAtDesc l ∧
  mergeData l [] ≡ₚ l.
Proof.
  intros Hnd.
  assert (Hkeys : Map_keys (index l) = Task.id <$> l).
  { rewrite index_NoDup by done. apply entries_keys. }
  assert (Hleft : mergeData l [] = Array_sort byUpdatedAtDesc l).
  { unfold mergeData. rewrite Hkeys. simpl. rewrite app_nil_r.
    unfold Set_new. rewrite foldl_Set_add_fresh by done. simpl.
    rewrite omap_fmap_id; [done|].
    intros t Ht. unfold mergeOne. by rewrite index_get_NoDup. }
  split_and!; [done| |by rewrite Hleft, Array_sort_Permutation].
  unfold mergeData. rewrite Hkeys. simpl.
  unfold Set_new. rewrite foldl_Set_add_fresh by done. simpl.
  rewrite omap_fmap_id; [done|].
  intros t Ht. unfold mergeOne. simpl. by apply index_get_NoDup.
Qed.

Lemma mergeData_empty_side_witness :
  mergeData [sampleTask 2 "C" (At 10); sampleTask 1 "B" (At 11)] []
  ≡ₚ [sampleTask 2 "C" (At 10); sampleTask 1 "B" (At 11)].
Proof.
  apply (mergeData_empty_side
           [sampleTask 2 "C" (At 10); sampleTask 1 "B" (At 11)]).
  apply (bool_decide_unpack _). vm_compute. reflexivity.
Defined.

Lemma newerOrSame_trans : Transitive newerOrSame.
Proof.
  intros a b c (x & y & Hx & Hy & Hxy) (y' & z & Hy' & Hz & Hyz).
  rewrite Hy in Hy'. injection Hy' as <-.
  exists x, z. split_and!; [done..|lia].
Qed.

Lemma in_order_newerOrSame l :
  Forall (fun t => ∃ x, Date_of (Task.updatedAt t) = Time x) l →
  in_order byUpdatedAtDesc l → Sorted newerOrSame l.
Proof.
  intros Hdated Hord. induction Hord as [|a l Hs IH Hhd]; [constructor|].
  apply Forall_cons in Hdated as [[x Hx] Hdated].
  constructor; [by apply IH|].
  destruct Hhd as [|b l Hab]; constructor.
  apply Forall_cons in Hdated as [[y Hy] _].
  exists x, y. split_and!; [done..|].
  unfold sort_keeps, byUpdatedAtDesc in Hab. rewrite Hx, Hy in Hab.
  simpl in Hab. apply Z.leb_le in Hab. lia.
Qed.

(** When every record of both inputs carries an [updatedAt] the sort can
    read, the output is newest first: each record is at least as new as
    every record after it. *)
Theorem mergeData_newest_first l r :
  (∀ t, t ∈ l ∨ t ∈ r → ∃ x, Date_of (Task.updatedAt t) = Time x) →
  StronglySorted newerOrSame (mergeData l r).
Proof.
  intros Hdated.
  apply (@Sorted_StronglySorted _ _ newerOrSame_trans).
  apply in_order_newerOrSame; [|apply mergeData_in_order].
  apply Forall_forall. intros t Ht.
  by apply Hdated, mergeData_records_from_inputs_aux.
Qed.
Lemma mergeData_newest_first_witness :
  StronglySorted newerOrSame
    (mergeData [sampleTask 1 "A" (At 10)]
               [sampleTask 1 "B" (At 11); sampleTask 2 "C" (At 10)]).
Proof.
  apply (mergeData_newest_first [sampleTask 1 "A" (At 10)]
           [sampleTask 1 "B" (At 11); sampleTask 2 "C" (At 10)]).
  intros t [Ht|Ht].
  - apply list_elem_of_singleton in Ht as ->. by exists 10.
  - apply elem_of_cons in Ht as [->|Ht]; [by exists 11|].
    apply list_elem_of_singleton in Ht as ->. by exists 10.
Defined.

Lemma resolveConflict_comm a b :
  (∃ x y, Date_or0 (Task.updatedAt a) = Time x
          ∧ Date_or0 (Task.updatedAt b) = Time y ∧ x ≠ y) →
  resolveConflict a b = resolveConflict b a.
Proof.
  intros (x & y & Hx & Hy & Hne). unfold resolveConflict.
  rewrite Hx, Hy. simpl.
  destruct (Z.ltb_spec y x), (Z.ltb_spec x y); try done; lia.
Qed.

(** Swapping the two sides changes the merge by the order of its records at
    most, as long as no id is shared by two records whose timestamps tie
    or cannot be read. *)
Theorem mergeData_comm_up_to_ties l r :
  (∀ a b, a ∈ l → b ∈ r → Task.id a = Task.id b →
          ∃ x y, Date_or0 (Task.updatedAt a) = Time x
                 ∧ Date_or0 (Task.updatedAt b) = Time y ∧ x ≠ y) →
  mergeData l r ≡ₚ mergeData r l.
Proof.
  intros Hties. apply NoDup_Permutation.
  - eapply NoDup_fmap_1, mergeData_ids_NoDup.
  - eapply NoDup_fmap_1, mergeData_ids_NoDup.
  - intros t. rewrite !mergeData_elem. unfold mergeOne.
    destruct (Map_get (Task.id t) (index l)) as [a|] eqn:Ha;
      destruct (Map_get (Task.id t) (index r)) as [b|] eqn:Hb; try done.
    rewrite (resolveConflict_comm a b); [done|].
    apply Hties; [by eapply index_get_elem..|].
    apply index_get_id in Ha, Hb. congruence.
Qed.

Lemma mergeData_comm_up_to_ties_witness :
  mergeData [sampleTask 1 "A" (At 10)]
            [sampleTask 1 "B" (At 11); sampleTask 2 "C" (At 10)]
  ≡ₚ mergeData [sampleTask 1 "B" (At 11); sampleTask 2 "C" (At 10)]
               [sampleTask 1 "A" (At 10)].
Proof.
  apply (mergeData_comm_up_to_ties [sampleTask 1 "A" (At 10)]
           [sampleTask 1 "B" (At 11); sampleTask 2 "C" (At 10)]).
  intros a b Ha Hb Hid.
  apply list_elem_of_singleton in Ha as ->.
  apply elem_of_cons in Hb as [->|Hb].
  - exists 10, 11. split_and!; [reflexivity..|lia].
  - apply list_elem_of_singleton in Hb as ->. discriminate Hid.
Defined.

(** An [updatedAt] that is no date, on either record, makes conflict
    resolution return the local record: every comparison with it fails. *)
Theorem resolveConflict_unparseable_keeps_local (localTask remoteTask : Task.t) :
  Task.updatedAt localTask = Invalid ∨ Task.updatedAt remoteTask = Invalid →
  resolveConflict localTask remoteTask = localTask.
Proof.
  unfold resolveConflict. intros [-> | ->]; simpl.
  - by destruct (Date_or0 (Task.updatedAt remoteTask)).
  - by destruct (Date_or0 (Task.updatedAt localTask)).
Qed.

Lemma resolveConflict_unparseable_keeps_local_witness :
  resolveConflict (sampleTask 1 "A" Invalid) (sampleTask 1 "B" (At 11))
  = sampleTask 1 "A" Invalid
  ∧ resolveConflict (sampleTask 1 "A" (At 10)) (sampleTask 1 "B" Invalid)
    = sampleTask 1 "A" (At 10).
Proof.
  split.
  - apply (resolveConflict_unparseable_keeps_local
             (sampleTask 1 "A" Invalid) (sampleTask 1 "B" (At 11))).
    left. reflexivity.
  - apply (resolveConflict_unparseable_keeps_local
             (sampleTask 1 "A" (At 10)) (sampleTask 1 "B" Invalid)).
    right. reflexivity.
Defined.
End MergeMore.

(** ** Propagation into the local table ([TaskManager.syncTasks]) *)

Section Propagation.
Implicit Types (db : gmap Z Task.t) (rs : list Task.t) (r t : Task.t) (k : Z).

Lemma syncOne_lookup_ne db r k :
  Task.id r ≠ k → TaskManager.syncOne db r !! k = db !! k.
Proof.
  intros Hne. unfold TaskManager.syncOne.
  repeat case_match; rewrite ?lookup_delete_ne, ?lookup_insert_ne by done; done.
Qed.

Lemma syncOne_lookup_eq db r :
  TaskManager.syncOne db r !! Task.id r = rowAfter (db !! Task.id r) r.
Proof.
  unfold TaskManager.syncOne, rowAfter.
  destruct (Task.deleted r); [by rewrite lookup_delete_eq|].
  destruct (db !! Task.id r) as [l|] eqn:Hl; [|by rewrite lookup_insert_eq].
  destruct (date_gt _ _); [by rewrite lookup_insert_eq|done].
Qed.

Lemma foldl_syncOne_lookup_notin rs db k :
  k ∉ Task.id <$> rs → foldl TaskManager.syncOne db rs !! k = db !! k.
Proof.
  revert db. induction rs as [|r rs IH]; intros db Hnot; simpl; [done|].
  rewrite fmap_cons, not_elem_of_cons in Hnot. destruct Hnot as [Hne Hnot].
  rewrite IH by done. by apply syncOne_lookup_ne.
Qed.

Lemma foldl_syncOne_lookup_in rs db r :
  NoDup (Task.id <$> rs) → r ∈ rs →
  foldl TaskManager.syncOne db rs !! Task.id r = rowAfter (db !! Task.id r) r.
Proof.
  revert db. induction rs as [|r' rs IH]; intros db Hnd Hin; simpl.
  - by apply elem_of_nil in Hin.
  - rewrite fmap_cons, NoDup_cons in Hnd. destruct Hnd as [Hfresh Hnd].
    apply elem_of_cons in Hin as [->|Hin].
    + rewrite foldl_syncOne_lookup_notin by done. apply syncOne_lookup_eq.
    + rewrite IH by done. rewrite syncOne_lookup_ne; [done|].
      intros Heq. apply Hfresh. rewrite Heq. by apply list_elem_of_fmap_2.
Qed.

Lemma with_synced_idemp b t :
  Task.with_synced b (Task.with_synced b t) = Task.with_synced b t.
Proof. done. Qed.

(** Once [syncTasks] has run, every record of the table is marked synced. *)
Theorem syncTasks_all_synced rs db k t :
  TaskManager.syncTasks rs db !! k = Some t → Task.synced t = true.
Proof.
  unfold TaskManager.syncTasks. rewrite lookup_fmap.
  destruct (foldl _ _ _ !! k); intros [= <-]. done.
Qed.

Lemma syncTasks_untouched_ids_aux rs db k :
  k ∉ Task.id <$> rs →
  TaskManager.syncTasks rs db !! k = Task.with_synced true <$> db !! k.
Proof.
  intros Hnot. unfold TaskManager.syncTasks.
  by rewrite lookup_fmap, foldl_syncOne_lookup_notin.
Qed.

(** A task no record of the list mentions keeps its content and is marked
    synced; no id appears in the table that was in neither. *)
Theorem syncTasks_untouched_ids rs db k :
  k ∉ Task.id <$> rs →
  TaskManager.syncTasks rs db !! k = Task.with_synced true <$> db !! k.
Proof. apply syncTasks_untouched_ids_aux. Qed.

(** A tombstone in the list (one record per id) removes the task from the
    table, whatever the two timestamps are. *)
Theorem syncTasks_applies_tombstone rs db r :
  NoDup (Task.id <$> rs) → r ∈ rs → Task.deleted r = true →
  TaskManager.syncTasks rs db !! Task.id r = None.
Proof.
  intros Hnd Hin Hdel. unfold TaskManager.syncTasks.
  rewrite lookup_fmap, foldl_syncOne_lookup_in by done.
  unfold rowAfter. by rewrite Hdel.
Qed.


(** If every row carries its key as [id], so does every row afterwards. *)
Theorem syncTasks_keeps_keyed rs db :
  keyed db → keyed (TaskManager.syncTasks rs db).
Proof.
  intros Hkeyed. unfold TaskManager.syncTasks.
  assert (Hfold : keyed (foldl TaskManager.syncOne db rs)).
  { revert db Hkeyed. induction rs as [|r rs IH]; intros db Hkeyed; [done|].
    simpl. apply IH. intros k t. unfold TaskManager.syncOne.
    repeat case_match; subst.
    - intros [_ ?]%lookup_delete_Some. by apply Hkeyed.
    - rewrite lookup_insert. case_decide; [by intros [= <-]|apply Hkeyed].
    - apply Hkeyed.
    - rewrite lookup_insert. case_decide; [by intros [= <-]|apply Hkeyed]. }
  intros k t. rewrite lookup_fmap.
  destruct (foldl _ _ _ !! k) as [t'|] eqn:Hk; intros [= <-].
  by apply (Hfold k t').
Qed.

(** Running [syncTasks] a second time with the same list (one record per
    id) changes nothing. *)
Theorem syncTasks_idempotent rs db :
  NoDup (Task.id <$> rs) →
  TaskManager.syncTasks rs (TaskManager.syncTasks rs db)
  = TaskManager.syncTasks rs db.
Proof.
  intros Hnd. apply map_eq. intros k.
  destruct (decide (k ∈ Task.id <$> rs)) as [Hin|Hnot].
  - apply list_elem_of_fmap in Hin as (r & -> & Hin).
    unfold TaskManager.syncTasks at 1 3.
    rewrite !lookup_fmap, !foldl_syncOne_lookup_in by done.
    unfold TaskManager.syncTasks.
    rewrite lookup_fmap, foldl_syncOne_lookup_in by done.
    unfold rowAfter. destruct (Task.deleted r); [done|].
    destruct (db !! Task.id r) as [l|]; simpl.
    + destruct (date_gt (Date_or0 (Task.updatedAt r))
                        (Date_or0 (Task.updatedAt l))) eqn:Hgt; simpl.
      * by destruct (Date_or0 (Task.updatedAt r)) as [|x];
          simpl; rewrite ?Z.ltb_irrefl.
      * by rewrite Hgt.
    + by destruct (Date_or0 (Task.updatedAt r)) as [|x];
        simpl; rewrite ?Z.ltb_irrefl.
  - rewrite !syncTasks_untouched_ids_aux by done.
    destruct (db !! k); done.
Qed.
Lemma syncTasks_all_synced_witness :
  Task.synced (Task.with_synced true (sampleTask 1 "A" (At 10))) = true.
Proof.
  apply (syncTasks_all_synced [sampleTask 2 "C" (At 10)] storeA 1).
  vm_compute. reflexivity.
Defined.

Lemma syncTasks_untouched_ids_witness :
  TaskManager.syncTasks [sampleTask 2 "C" (At 10)] storeA !! 1
  = Task.with_synced true <$> storeA !! 1.
Proof.
  apply (syncTasks_untouched_ids [sampleTask 2 "C" (At 10)] storeA 1).
  apply (bool_decide_unpack _). vm_compute. reflexivity.
Defined.

Lemma syncTasks_applies_tombstone_witness :
  TaskManager.syncTasks [sampleTask 2 "C" (At 10); tombstone5] storeLive5 !! 5
  = None.
Proof.
  apply (syncTasks_applies_tombstone
           [sampleTask 2 "C" (At 10); tombstone5] storeLive5 tombstone5).
  - apply (bool_decide_unpack _). vm_compute. reflexivity.
  - apply list_elem_of_further, list_elem_of_here.
  - reflexivity.
Defined.


Lemma keyed_singleton (t : Task.t) : keyed {[ Task.id t := t ]}.
Proof. intros k t' [<- <-]%lookup_singleton_Some. done. Qed.

Lemma noTombstone_singleton (j : Z) (t : Task.t) :
  Task.deleted t = false → noTombstone {[ j := t ]}.
Proof. intros Hlive k t' [_ <-]%lookup_singleton_Some. done. Qed.

Lemma syncTasks_keeps_keyed_witness :
  keyed (TaskManager.syncTasks
           [sampleTask 1 "B" (At 11); sampleTask 2 "C" (At 10)] storeA).
Proof.
  apply (syncTasks_keeps_keyed
           [sampleTask 1 "B" (At 11); sampleTask 2 "C" (At 10)] storeA).
  apply (keyed_singleton (sampleTask 1 "A" (At 10))).
Defined.

Lemma syncTasks_idempotent_witness :
  TaskManager.syncTasks [sampleTask 1 "B" (At 11); tombstone5]
    (TaskManager.syncTasks [sampleTask 1 "B" (At 11); tombstone5] storeA)
  = TaskManager.syncTasks [sampleTask 1 "B" (At 11); tombstone5] storeA.
Proof.
  apply (syncTasks_idempotent [sampleTask 1 "B" (At 11); tombstone5] storeA).
  apply (bool_decide_unpack _). vm_compute. reflexivity.
Defined.
End Propagation.

(** ** Reading the local table ([TaskManager.getAllTasks], [getStats]) *)

Section StoreReads.
Implicit Types (db : gmap Z Task.t) (t : Task.t) (k : Z).

Lemma filter_fmap_NoDup {A B} (f : A → B) (p : A → bool) (l : list A) :
  NoDup (f <$> l) → NoDup (f <$> List.filter p l).
Proof.
  induction l as [|x l IH]; simpl; [done|].
  rewrite NoDup_cons. intros [Hfresh Hnd]. destruct (p x); [|by apply IH].
  rewrite fmap_cons. apply NoDup_cons. split; [|by apply IH].
  intros Hin. apply Hfresh.
  apply list_elem_of_fmap in Hin as (y & -> & Hy).
  apply list_elem_of_fmap_2.
  rewrite list_elem_of_In, filter_In in Hy. destruct Hy as [Hy _].
  by apply (proj2 (list_elem_of_In _ _)).
Qed.

Lemma filter_StronglySorted {A} (R : relation A) (p : A → bool) (l : list A) :
  StronglySorted R l → StronglySorted R (List.filter p l).
Proof.
  induction 1 as [|x l Hs IH Hall]; simpl; [constructor|].
  destruct (p x); [|done]. constructor; [done|].
  rewrite Forall_forall in *. intros y Hy.
  rewrite list_elem_of_In, filter_In in Hy. destruct Hy as [Hy _].
  by apply Hall, (proj2 (list_elem_of_In _ _)).
Qed.

Lemma filter_partition {A} (p : A → bool) (l : list A) :
  List.filter p l ++ List.filter (fun x => negb (p x)) l ≡ₚ l.
Proof.
  induction l as [|x l IH]; simpl; [done|].
  destruct (p x); simpl.
  - by rewrite IH.
  - rewrite <-Permutation_middle. by rewrite IH.
Qed.

Lemma getAllTasks_all_elem tza today db t :
  t ∈ TaskManager.getAllTasks tza today "all" db
  ↔ Task.deleted t = false ∧ ∃ k, db !! k = Some t.
Proof.
  unfold TaskManager.getAllTasks. rewrite <-toArray_elem. simpl.
  rewrite !list_elem_of_In, filter_In, negb_true_iff. tauto.
Qed.

(** Under keys that are the records' ids, [toArray] lists the rows by
    strictly increasing id. *)
Lemma toArray_sorted db :
  keyed db →
  StronglySorted (fun a b => Task.id a < Task.id b) (TaskManager.toArray db).
Proof.
  intros Hkeyed. unfold TaskManager.toArray.
  set (rows := merge_sort TaskManager.key_le (map_to_list db)).
  assert (Hperm : rows ≡ₚ map_to_list db) by apply merge_sort_Permutation.
  assert (Hsorted : StronglySorted TaskManager.key_le rows).
  { apply StronglySorted_merge_sort.
    - intros a b c. unfold TaskManager.key_le. lia.
    - intros a b. unfold TaskManager.key_le. lia. }
  assert (Hnd : NoDup rows.*1).
  { rewrite Hperm. apply NoDup_fst_map_to_list. }
  assert (Hids : ∀ e, e ∈ rows → Task.id e.2 = e.1).
  { intros [k t] He. rewrite Hperm in He.
    apply elem_of_map_to_list in He. by apply Hkeyed. }
  clearbody rows. clear Hperm.
  induction Hsorted as [|e rows Hs IH Hall]; simpl; [constructor|].
  rewrite fmap_cons in Hnd. apply NoDup_cons in Hnd as [Hfresh Hnd].
  constructor.
  - apply IH; [done|]. intros e' He'. apply Hids. by right.
  - apply Forall_fmap, Forall_forall. intros e' He'. simpl.
    rewrite Forall_forall in Hall. specialize (Hall e' He').
    unfold TaskManager.key_le in Hall.
    rewrite (Hids e) by (by left). rewrite (Hids e') by (by right).
    assert (e.1 ≠ e'.1).
    { intros Heq. apply Hfresh. rewrite Heq. by apply list_elem_of_fmap_2. }
    lia.
Qed.

Lemma StronglySorted_lt_NoDup (l : list Task.t) :
  StronglySorted (fun a b => Task.id a < Task.id b) l → NoDup (Task.id <$> l).
Proof.
  induction 1 as [|x l Hs IH Hall]; [constructor|].
  rewrite fmap_cons. apply NoDup_cons. split; [|done].
  intros (y & Heq & Hy)%list_elem_of_fmap.
  rewrite Forall_forall in Hall. specialize (Hall y Hy). lia.
Qed.

Lemma getAllTasks_sorted tza today filter db :
  keyed db →
  StronglySorted (fun a b => Task.id a < Task.id b)
    (TaskManager.getAllTasks tza today filter db).
Proof.
  intros Hkeyed. unfold TaskManager.getAllTasks.
  repeat case_decide; repeat apply filter_StronglySorted;
    by apply toArray_sorted.
Qed.

Lemma getAllTasks_ids_NoDup tza today filter db :
  keyed db → NoDup (Task.id <$> TaskManager.getAllTasks tza today filter db).
Proof. intros. by apply StronglySorted_lt_NoDup, getAllTasks_sorted. Qed.

(** With the default filter, [getAllTasks] lists exactly the stored records
    that are not tombstones, by strictly increasing id (so each once). *)
Theorem getAllTasks_lists_live_rows tza today db :
  keyed db →
  (∀ t, t ∈ TaskManager.getAllTasks tza today "all" db
        ↔ Task.deleted t = false ∧ db !! Task.id t = Some t) ∧
  StronglySorted (fun a b => Task.id a < Task.id b)
    (TaskManager.getAllTasks tza today "all" db).
Proof.
  intros Hkeyed. split; [|by apply getAllTasks_sorted].
  intros t. rewrite getAllTasks_all_elem. split.
  - intros [Hlive [k Hk]]. split; [done|].
    by rewrite (Hkeyed k t Hk).
  - intros [Hlive Hk]. eauto.
Qed.

Lemma getAllTasks_lists_live_rows_witness :
  sampleTask 1 "A" (At 10) ∈ TaskManager.getAllTasks fixedZone 0 "all" storeA.
Proof.
  destruct (getAllTasks_lists_live_rows fixedZone 0 storeA) as [Hmem _].
  - apply (keyed_singleton (sampleTask 1 "A" (At 10))).
  - apply Hmem. split; vm_compute; reflexivity.
Defined.

(** The ['completed'] and ['pending'] views split the default view: taken
    together they hold its records, each once. *)
Theorem getAllTasks_completed_pending_split tza today db :
  TaskManager.getAllTasks tza today "completed" db
  ++ TaskManager.getAllTasks tza today "pending" db
  ≡ₚ TaskManager.getAllTasks tza today "all" db.
Proof. unfold TaskManager.getAllTasks. simpl. apply filter_partition. Qed.
End StoreReads.

(** ** A successful cycle, end to end *)

Section CycleMore.
Implicit Types (db : gmap Z Task.t) (l : list Task.t) (t m : Task.t) (k : Z).

Local Abbreviation entry := (fun task : Task.t => (Task.id task, task)).
Local Abbreviation index l := (Map_new (entry <$> l)).

Lemma date_gt_irrefl (a : timeval) : date_gt a a = false.
Proof. destruct a; simpl; [done|apply Z.ltb_irrefl]. Qed.

Lemma ids_unique l a b :
  NoDup (Task.id <$> l) → a ∈ l → b ∈ l → Task.id a = Task.id b → a = b.
Proof.
  intros Hnd Ha Hb Hid.
  pose proof (index_get_NoDup l a Hnd Ha) as Hga.
  pose proof (index_get_NoDup l b Hnd Hb) as Hgb.
  rewrite Hid in Hga. congruence.
Qed.

(** The index the merge builds of the local tasks agrees with the table. *)
Lemma index_getAllTasks tza today db k :
  keyed db → noTombstone db →
  Map_get k (index (TaskManager.getAllTasks tza today "all" db)) = db !! k.
Proof.
  intros Hkeyed Hlive.
  pose proof (getAllTasks_ids_NoDup tza today "all" db Hkeyed) as Hnd.
  destruct (db !! k) as [x|] eqn:Hk.
  - rewrite <-(Hkeyed k x Hk). apply index_get_NoDup; [done|].
    apply getAllTasks_all_elem. split; [by eapply Hlive|eauto].
  - destruct (Map_get k _) as [x|] eqn:Hget; [|done].
    pose proof (index_get_id _ _ _ Hget) as Hid.
    apply index_get_elem, getAllTasks_all_elem in Hget as [_ [k' Hk']].
    rewrite (Hkeyed k' x Hk') in Hid. congruence.
Qed.

(** The row propagation leaves for a record the merge has put out. *)
Lemma rowAfter_merged db r m k :
  noTombstone db →
  match db !! k, r with
  | None, r => r
  | Some a, None => Some a
  | Some a, Some b => Some (resolveConflict a b)
  end = Some m →
  Task.with_synced true <$> rowAfter (db !! k) m
  = if Task.deleted m then None else Some (Task.with_synced true m).
Proof.
  intros Hlive Hone. unfold rowAfter.
  destruct (db !! k) as [a|] eqn:Hk.
  - pose proof (Hlive k a Hk) as Ha.
    assert (Hcases : m = a ∨
                     (date_gt (Date_or0 (Task.updatedAt m))
                              (Date_or0 (Task.updatedAt a)) = true)).
    { destruct r as [b|]; [|left; congruence].
      injection Hone as <-. unfold resolveConflict.
      destruct (date_gt (Date_or0 (Task.updatedAt a)) _); [by left|].
      destruct (date_gt (Date_or0 (Task.updatedAt b)) _) eqn:Hgt;
        [by right|by left]. }
    destruct Hcases as [-> | Hgt].
    + rewrite Ha, date_gt_irrefl. done.
    + rewrite Hgt. by destruct (Task.deleted m).
  - by destruct (Task.deleted m).
Qed.

Lemma propagated_table_is_live_merge_aux tza today db (remote : list Task.t) :
  keyed db → noTombstone db →
  let merged := mergeData (TaskManager.getAllTasks tza today "all" db) remote in
  ∀ k t, TaskManager.syncTasks merged db !! k = Some t
         ↔ ∃ m, m ∈ merged ∧ Task.id m = k ∧ Task.deleted m = false
                ∧ t = Task.with_synced true m.
Proof.
  intros Hkeyed Hlive merged k t.
  assert (Hnd : NoDup (Task.id <$> merged)) by apply mergeData_ids_NoDup.
  destruct (decide (k ∈ Task.id <$> merged)) as [Hin|Hnot].
  - apply list_elem_of_fmap in Hin as (m & -> & Hm).
    unfold TaskManager.syncTasks.
    rewrite lookup_fmap, foldl_syncOne_lookup_in by done.
    pose proof (proj1 (mergeData_elem _ _ _) Hm) as Hone.
    unfold mergeOne in Hone. rewrite index_getAllTasks in Hone by done.
    rewrite (rowAfter_merged db _ m (Task.id m) Hlive Hone).
    split.
    + destruct (Task.deleted m) eqn:Hdel; [done|]. intros [= <-]. eauto.
    + intros (m' & Hm' & Hid & Hdel & ->).
      rewrite (ids_unique merged m' m Hnd Hm' Hm Hid) in *.
      by rewrite Hdel.
  - rewrite syncTasks_untouched_ids_aux by done. split.
    + destruct (db !! k) as [x|] eqn:Hk; [|done]. exfalso. apply Hnot.
      apply mergeData_ids_elem. left.
      rewrite <-(Hkeyed k x Hk). apply list_elem_of_fmap_2.
      apply getAllTasks_all_elem. split; [by eapply Hlive|eauto].
    + intros (m & Hm & <- & _). exfalso. apply Hnot.
      by apply list_elem_of_fmap_2.
Qed.
(** Propagating the merge of the table's tasks with a remote list leaves
    the table holding exactly the live records of the merge, each under its
    id and marked synced (for a table keyed by id that holds no tombstone). *)
Theorem propagated_table_is_live_merge tza today db (remote : list Task.t) :
  keyed db → noTombstone db →
  let merged := mergeData (TaskManager.getAllTasks tza today "all" db) remote in
  ∀ k t, TaskManager.syncTasks merged db !! k = Some t
         ↔ ∃ m, m ∈ merged ∧ Task.id m = k ∧ Task.deleted m = false
                ∧ t = Task.with_synced true m.
Proof. apply propagated_table_is_live_merge_aux. Qed.

Lemma propagated_table_is_live_merge_witness :
  TaskManager.syncTasks
    (mergeData (TaskManager.getAllTasks fixedZone 0 "all" storeA)
               [sampleTask 1 "B" (At 11); sampleTask 2 "C" (At 10)])
    storeA !! 2
  = Some (Task.with_synced true (sampleTask 2 "C" (At 10))).
Proof.
  apply (propagated_table_is_live_merge fixedZone 0 storeA
           [sampleTask 1 "B" (At 11); sampleTask 2 "C" (At 10)]).
  - apply (keyed_singleton (sampleTask 1 "A" (At 10))).
  - apply (noTombstone_singleton 1 (sampleTask 1 "A" (At 10))). reflexivity.
  - exists (sampleTask 2 "C" (At 10)). split_and!; [|reflexivity..].
    vm_compute. apply list_elem_of_further, list_elem_of_here.
Defined.

(** What a cycle that gets through leaves behind. *)
Lemma syncWithGitHub_success (w : World) (s : State) (rd : RemoteData) :
  canEnter w s = true → getData w = Ok (Some rd) →
  (∀ doc, ∃ res, saveData w doc = Ok res ∧ success res = true) →
  let merged :=
    mergeData (TaskManager.getAllTasks (localTZA w) (now w (ticks s)) "all"
                                       (tasks s))
              (default [] (rd_tasks rd)) in
  let s' := (SyncManager.syncWithGitHub w s).2 in
  tasks s' = TaskManager.syncTasks merged (tasks s) ∧
  lastSync s' = Some (now w (4 + ticks s)) ∧
  stored_lastSync s' = Some (now w (4 + ticks s)) ∧
  isSyncing s' = false ∧
  writtenTasks (trace s') = writtenTasks (trace s) ++ [merged].
Proof.
  unfold canEnter. intros Hguard Hget Hsave.
  apply andb_true_iff in Hguard as [Hguard Honline].
  apply andb_true_iff in Hguard as [Hconf Hidle].
  apply negb_true_iff in Hidle.
  run_sync. rewrite Hconf, Hidle, Honline. simpl. rewrite Hget. simpl.
  match goal with
  | |- context [saveData w ?d] =>
      destruct (Hsave d) as ([ok err] & Hres & Hok); rewrite Hres
  end.
  simpl in Hok. subst ok. simpl. split_and!; [done..|].
  unfold writtenTasks. rewrite !omap_app. simpl. by rewrite !app_nil_r.
Qed.

(** After a cycle that gets through (the store is configured and online,
    hands out a document and accepts the write), the table holds exactly
    the live records of the task list just written, each marked synced, and
    the in-memory and the persisted [lastSync] hold the same instant (for a
    table keyed by id that held no tombstone). *)
Theorem successful_cycle_table_matches_document (w : World) (s : State)
    (rd : RemoteData) :
  canEnter w s = true → keyed (tasks s) → noTombstone (tasks s) →
  getData w = Ok (Some rd) →
  (∀ doc, ∃ res, saveData w doc = Ok res ∧ success res = true) →
  let s' := (SyncManager.syncWithGitHub w s).2 in
  ∃ merged,
    writtenTasks (trace s') = writtenTasks (trace s) ++ [merged] ∧
    (∀ k t, tasks s' !! k = Some t
            ↔ ∃ m, m ∈ merged ∧ Task.id m = k ∧ Task.deleted m = false
                   ∧ t = Task.with_synced true m) ∧
    is_Some (lastSync s') ∧ stored_lastSync s' = lastSync s'.
Proof.
  intros Hguard Hkeyed Hlive Hget Hsave s'.
  destruct (syncWithGitHub_success w s rd Hguard Hget Hsave)
    as (Htasks & Hlast & Hstored & _ & Hwritten).
  fold s' in Htasks, Hlast, Hstored, Hwritten.
  eexists. split; [exact Hwritten|]. split_and!.
  - intros k t. rewrite Htasks.
    by apply propagated_table_is_live_merge_aux.
  - rewrite Hlast. eauto.
  - by rewrite Hstored, Hlast.
Qed.

Lemma successful_cycle_table_matches_document_witness :
  ∃ merged,
    writtenTasks (trace (SyncManager.syncWithGitHub
                           (sampleWorld (Ok (Some remoteBC)) true)
                           (sampleState storeA false)).2)
    = writtenTasks (trace (sampleState storeA false)) ++ [merged].
Proof.
  destruct (successful_cycle_table_matches_document
              (sampleWorld (Ok (Some remoteBC)) true)
              (sampleState storeA false) remoteBC)
    as (merged & Hwritten & _).
  - reflexivity.
  - apply (keyed_singleton (sampleTask 1 "A" (At 10))).
  - apply (noTombstone_singleton 1 (sampleTask 1 "A" (At 10))). reflexivity.
  - reflexivity.
  - intros doc. eexists. split; reflexivity.
  - by exists merged.
Defined.
End CycleMore.

(** ** Every path through a cycle, and what triggers one *)

Section CyclePaths.
Variable w : World.

(** The events a cycle adds to the trace, by the path it takes. *)
Lemma syncWithGitHub_paths (s : State) :
  let r := SyncManager.syncWithGitHub w s in
  let final := EStatus (if isOnline s then online else offline) in
  r.1 = Ok tt ∧ isOnline r.2 = isOnline s ∧
  ((canEnter w s = false ∧ r.2 = s) ∨
   (canEnter w s = true ∧ isSyncing r.2 = false ∧
    ((∃ msg, trace r.2 = trace s ++ [EStatus syncing; ERead; ELog msg error_; final]
             ∧ (∀ rd, getData w ≠ Ok (Some rd)) ∧ same_local s r.2) ∨
     (∃ rd doc msg, trace r.2 = trace s ++ [EStatus syncing; ERead; EWrite doc;
                                          ELog msg error_; final]
                 ∧ getData w = Ok (Some rd) ∧ same_local s r.2) ∨
     (∃ rd doc, trace r.2 = trace s ++ [EStatus syncing; ERead; EWrite doc;
                                     ELastSyncDisplay;
                                     ELog "Sincronización completada exitosamente" success_;
                                     ENotify "Datos sincronizados" success_;
                                     final]
                ∧ getData w = Ok (Some rd)
                ∧ is_Some (lastSync r.2)
                ∧ stored_lastSync r.2 = lastSync r.2)))).
Proof.
  unfold canEnter. run_sync.
  destruct (isConfigured w), (isSyncing s) eqn:Hbusy, (isOnline s) eqn:Hon;
    simpl; try (split_and!; [done..|left; by destruct s; simplify_eq/=]).
  destruct (getData w) as [[rd|]|msg] eqn:Hget; simpl.
  - match goal with
    | |- context [saveData w ?d] =>
        destruct (saveData w d) as [[[] err]|msg] eqn:Hsave
    end; simpl; rewrite Hon; (split_and!; [done..|right; split_and!; [done..|]]).
    + right; right. eexists _, _.
      split_and!; [by rewrite <-!app_assoc|done|by eexists|done].
    + right; left. eexists _, _, _. split_and!; [by rewrite <-!app_assoc|done..].
    + right; left. eexists _, _, _. split_and!; [by rewrite <-!app_assoc|done..].
  - rewrite Hon. split_and!; [done..|right; split_and!; [done..|]].
    left. eexists. split_and!; [by rewrite <-!app_assoc|done..].
  - rewrite Hon. split_and!; [done..|right; split_and!; [done..|]].
    left. eexists. split_and!; [by rewrite <-!app_assoc|done..].
Qed.

(** A cycle never fails towards its caller, and one that was let in always
    ends with [isSyncing] cleared and with the status indicator set back
    from "syncing" to the connectivity state, whichever step went wrong. *)
Theorem cycle_always_cleans_up (s : State) :
  let r := SyncManager.syncWithGitHub w s in
  r.1 = Ok tt ∧
  (canEnter w s = true →
   isSyncing r.2 = false ∧
   ∃ mid, trace r.2
          = trace s ++ [EStatus syncing] ++ mid
            ++ [EStatus (if isOnline s then online else offline)]).
Proof.
  intros r. destruct (syncWithGitHub_paths s) as (Hok & _ & Hpaths).
  fold r in Hok, Hpaths. split; [done|]. intros Henter.
  destruct Hpaths as [[Hno _]|(_ & Hidle & Hpath)]; [congruence|].
  split; [done|].
  destruct Hpath as [(msg & -> & _)|[(rd & doc & msg & -> & _)|(rd & doc & -> & _)]].
  - by exists [ERead; ELog msg error_].
  - by exists [ERead; EWrite doc; ELog msg error_].
  - by exists [ERead; EWrite doc; ELastSyncDisplay;
               ELog "Sincronización completada exitosamente" success_;
               ENotify "Datos sincronizados" success_].
Qed.

(** A cycle reads the remote store at most once and writes to it at most
    once, and only after a read that returned a document; a cycle that is
    not let in does neither and leaves the whole state as it is. *)
Theorem cycle_remote_calls (s : State) :
  let r := SyncManager.syncWithGitHub w s in
  ∃ new, trace r.2 = trace s ++ new ∧
         (count isRead new <= 1)%nat ∧
         (count isWrite new <= count isRead new)%nat ∧
         (canEnter w s = false → r.2 = s ∧ new = []) ∧
         ((∀ rd, getData w ≠ Ok (Some rd)) → count isWrite new = 0%nat).
Proof.
  intros r. destruct (syncWithGitHub_paths s) as (_ & _ & Hpaths).
  fold r in Hpaths.
  destruct Hpaths as [[Hno Hsame]|(Henter & _ & Hpath)].
  - exists []. rewrite Hsame, app_nil_r. split_and!; cbn; try lia; done.
  - destruct Hpath as [(msg & -> & Hnone & _)
                      |[(rd & doc & msg & -> & Hget & _)|(rd & doc & -> & Hget & _)]];
      eexists; (split; [done|]); cbn; split_and!; try lia; try congruence.
    all: intros Hnone; exfalso; by eapply Hnone.
Qed.

(** A cycle that is let in reports its outcome once: either one error line
    in the log and no notification, with the table and [lastSync] as they
    were, or one notification and no error line, with [lastSync] set. *)
Theorem cycle_reports_once (s : State) :
  canEnter w s = true →
  let r := SyncManager.syncWithGitHub w s in
  ∃ new, trace r.2 = trace s ++ new ∧
         ((count isErrorLog new = 1%nat ∧ count isNotification new = 0%nat
           ∧ tasks r.2 = tasks s ∧ lastSync r.2 = lastSync s)
          ∨ (count isErrorLog new = 0%nat ∧ count isNotification new = 1%nat
             ∧ is_Some (lastSync r.2))).
Proof.
  intros Henter r. destruct (syncWithGitHub_paths s) as (_ & _ & Hpaths).
  fold r in Hpaths.
  destruct Hpaths as [[Hno _]|(_ & _ & Hpath)]; [congruence|].
  destruct Hpath as [(msg & -> & _ & Hsame)
                    |[(rd & doc & msg & -> & _ & Hsame)|(rd & doc & -> & _ & Hlast & _)]];
    eexists; (split; [done|]); cbn.
  - left. destruct Hsame as (? & ? & ?). done.
  - left. destruct Hsame as (? & ? & ?). done.
  - right. done.
Qed.

(** A cycle that is not let in is no step at all. *)
Lemma syncWithGitHub_blocked (s : State) :
  canEnter w s = false → SyncManager.syncWithGitHub w s = (Ok tt, s).
Proof.
  intros Hno. destruct (syncWithGitHub_paths s) as (Hok & _ & Hpaths).
  destruct Hpaths as [[_ Hsame]|(Henter & _)]; [|congruence].
  destruct (SyncManager.syncWithGitHub w s) as [o s']. simpl in *. congruence.
Qed.

Lemma autoSyncTick_is_cycle_aux (s : State) :
  autoSyncTick w s = SyncManager.syncWithGitHub w s.
Proof.
  unfold autoSyncTick, mbind, M_bind, get. simpl.
  destruct (isOnline s && negb (isSyncing s) && isConfigured w) eqn:Hguard;
    [done|].
  rewrite syncWithGitHub_blocked; [done|]. unfold canEnter.
  destruct (isOnline s), (isSyncing s), (isConfigured w); done.
Qed.

(** The periodic timer's own check adds nothing to the entry guard of the
    cycle: a tick does exactly what a direct call of the cycle does.  Neither
    looks at the auto-sync preference. *)
Theorem autoSyncTick_is_cycle (s : State) :
  autoSyncTick w s = SyncManager.syncWithGitHub w s.
Proof. apply autoSyncTick_is_cycle_aux. Qed.

(** While a cycle is in flight no trigger starts another: a direct call and
    a timer tick leave the state as it is, and the online handler only
    records the status change and its log line. *)
Theorem triggers_blocked_while_syncing (s : State) :
  isSyncing s = true →
  SyncManager.syncWithGitHub w s = (Ok tt, s) ∧
  autoSyncTick w s = (Ok tt, s) ∧
  (handleOnline w s).1 = Ok tt ∧
  trace (handleOnline w s).2
  = trace s ++ [EStatus online; ELog "Conectado a internet" success_] ∧
  tasks (handleOnline w s).2 = tasks s ∧
  isSyncing (handleOnline w s).2 = true.
Proof.
  intros Hbusy.
  assert (Hblocked : ∀ s', isSyncing s' = true →
                           SyncManager.syncWithGitHub w s' = (Ok tt, s')).
  { intros s' Hs'. apply syncWithGitHub_blocked. unfold canEnter.
    rewrite Hs'. by destruct (isConfigured w). }
  split; [by apply Hblocked|]. split.
  { rewrite autoSyncTick_is_cycle_aux. by apply Hblocked. }
  unfold handleOnline, SyncManager.log, SyncManager.updateSyncStatus, mbind,
    M_bind, mret, M_ret, get, modify. simpl.
  destruct (autoSync s); [rewrite Hblocked by done|]; simpl;
    rewrite <-?app_assoc; done.
Qed.

(** Once the offline handler has run, the cycle, the timer tick and a manual
    sync all stay away from the remote store: the first two do nothing, the
    manual sync logs its opening line and nothing more. *)
Theorem offline_blocks_every_trigger (s : State) :
  let s1 := (handleOffline s).2 in
  isOnline s1 = false ∧
  trace s1 = trace s ++ [EStatus offline; ELog "Sin conexión a internet" warning] ∧
  SyncManager.syncWithGitHub w s1 = (Ok tt, s1) ∧
  autoSyncTick w s1 = (Ok tt, s1) ∧
  (isSyncing s = false →
   SyncManager.manualSync w s1
   = (Ok tt, emit (ELog "Iniciando sincronización manual..." info) s1)).
Proof.
  intros s1.
  assert (Hoff : isOnline s1 = false) by done.
  assert (Hblocked : ∀ s', isOnline s' = false →
                           SyncManager.syncWithGitHub w s' = (Ok tt, s')).
  { intros s' Hs'. apply syncWithGitHub_blocked. unfold canEnter.
    rewrite Hs'. by rewrite andb_false_r. }
  split_and!; [done| |by apply Hblocked| |].
  - subst s1. unfold handleOffline, SyncManager.log,
      SyncManager.updateSyncStatus, mbind, M_bind, modify. simpl.
    by rewrite <-app_assoc.
  - rewrite autoSyncTick_is_cycle_aux. by apply Hblocked.
  - intros Hidle. unfold SyncManager.manualSync, SyncManager.log, mbind,
      M_bind, get, modify. simpl.
    rewrite Hidle. by apply Hblocked.
Qed.

(** Coming online with the store configured and no cycle in flight reads
    the remote store exactly once when auto-sync is on, whatever the
    connectivity flag said before, and not at all when auto-sync is off. *)
Theorem handleOnline_reads_once_or_not (s : State) :
  isSyncing s = false → isConfigured w = true →
  ∃ new, trace (handleOnline w s).2
         = trace s ++ [EStatus online; ELog "Conectado a internet" success_] ++ new ∧
         isOnline (handleOnline w s).2 = true ∧
         count isRead new = (if autoSync s then 1 else 0)%nat.
Proof.
  intros Hidle Hconf. unfold handleOnline.
  unfold SyncManager.log, SyncManager.updateSyncStatus, mbind, M_bind, mret,
    M_ret, get, modify. simpl.
  destruct (autoSync s) eqn:Hauto.
  - set (s1 := emit _ (emit _ (set_isOnline true s))).
    destruct (syncWithGitHub_paths s1) as (_ & Hon & Hpaths).
    rewrite Hon.
    destruct Hpaths as [[Hno _]|(_ & _ & Hpath)].
    { unfold canEnter in Hno. simpl in Hno. by rewrite Hconf, Hidle in Hno. }
    destruct Hpath as [(msg & -> & _)
                      |[(rd & doc & msg & -> & _)|(rd & doc & -> & _)]];
      eexists; (split; [simpl; rewrite <-!app_assoc; reflexivity|]); done.
  - exists []. simpl. by rewrite <-app_assoc.
Qed.
End CyclePaths.

Lemma cycle_always_cleans_up_witness :
  isSyncing (SyncManager.syncWithGitHub (sampleWorld (Throw "timeout") true)
               (sampleState storeA false)).2 = false.
Proof.
  apply (cycle_always_cleans_up (sampleWorld (Throw "timeout") true)
           (sampleState storeA false)).
  reflexivity.
Defined.

Lemma cycle_remote_calls_witness :
  ∃ new, trace (SyncManager.syncWithGitHub (sampleWorld (Ok None) true)
                  (sampleState storeA false)).2
         = trace (sampleState storeA false) ++ new
         ∧ count isWrite new = 0%nat.
Proof.
  destruct (cycle_remote_calls (sampleWorld (Ok None) true)
              (sampleState storeA false))
    as (new & Htrace & _ & _ & _ & Hnowrite).
  exists new. split; [exact Htrace|]. apply Hnowrite. discriminate.
Defined.

Lemma cycle_reports_once_witness :
  ∃ new, trace (SyncManager.syncWithGitHub
                  (sampleWorld (Ok (Some remoteBC)) false)
                  (sampleState storeA false)).2
         = trace (sampleState storeA false) ++ new.
Proof.
  destruct (cycle_reports_once (sampleWorld (Ok (Some remoteBC)) false)
              (sampleState storeA false))
    as (new & Htrace & _).
  - reflexivity.
  - by exists new.
Defined.

Lemma triggers_blocked_while_syncing_witness :
  autoSyncTick (sampleWorld (Ok (Some remoteBC)) true)
    (sampleState storeA true)
  = (Ok tt, sampleState storeA true).
Proof.
  apply (triggers_blocked_while_syncing
           (sampleWorld (Ok (Some remoteBC)) true) (sampleState storeA true)).
  reflexivity.
Defined.

Lemma offline_blocks_every_trigger_witness :
  SyncManager.manualSync (sampleWorld (Ok (Some remoteBC)) true)
    (handleOffline (sampleState storeA false)).2
  = (Ok tt, emit (ELog "Iniciando sincronización manual..." info)
                 (handleOffline (sampleState storeA false)).2).
Proof.
  apply (offline_blocks_every_trigger
           (sampleWorld (Ok (Some remoteBC)) true) (sampleState storeA false)).
  reflexivity.
Defined.

Lemma handleOnline_reads_once_or_not_witness :
  ∃ new, trace (handleOnline (sampleWorld (Ok (Some remoteBC)) true)
                  (sampleState storeA false)).2
         = trace (sampleState storeA false)
           ++ [EStatus online; ELog "Conectado a internet" success_] ++ new
         ∧ count isRead new = 1%nat.
Proof.
  destruct (handleOnline_reads_once_or_not
              (sampleWorld (Ok (Some remoteBC)) true)
              (sampleState storeA false))
    as (new & Htrace & _ & Hread).
  - reflexivity.
  - reflexivity.
  - exists new. split; [exact Htrace|exact Hread].
Defined.

(** ** The device registry: what the list returned holds *)

Section DevicesMore.
Variables (w : World) (s : State).
Implicit Types (existingDevices : list Device.t) (d : Device.t).

(** The written list keeps one entry per id. *)
Lemma upsert_ids existingDevices :
  NoDup (Device.id <$> existingDevices) →
  NoDup (Device.id <$>
           match list_find (fun d => Device.id d = deviceId s) existingDevices with
           | Some (i, _) => <[i:=selfDevice w s]> existingDevices
           | None => existingDevices ++ [selfDevice w s]
           end).
Proof.
  intros Hnd.
  destruct (list_find _ existingDevices) as [[i x]|] eqn:Hfind.
  - apply list_find_Some in Hfind as (Hi & Hx & _).
    rewrite list_fmap_insert. simpl. rewrite list_insert_id; [done|].
    by rewrite list_lookup_fmap, Hi, <-Hx.
  - apply list_find_None in Hfind. rewrite fmap_app. simpl.
    apply NoDup_app. split_and!; [done| |apply NoDup_singleton].
    intros k Hk ->%list_elem_of_singleton.
    apply list_elem_of_fmap in Hk as (d & Hd & Hin).
    rewrite Forall_forall in Hfind. by apply (Hfind d).
Qed.

(** The written list holds the self entry and entries passed in. *)
Lemma upsert_elem existingDevices d :
  d ∈ match list_find (fun d => Device.id d = deviceId s) existingDevices with
      | Some (i, _) => <[i:=selfDevice w s]> existingDevices
      | None => existingDevices ++ [selfDevice w s]
      end →
  d = selfDevice w s ∨ d ∈ existingDevices.
Proof.
  destruct (list_find _ existingDevices) as [[i x]|].
  - intros [j Hj]%list_elem_of_lookup.
    destruct (decide (i = j)) as [->|Hne].
    + left. apply list_lookup_insert_Some in Hj as [(_ & ? & _)|[? _]]; done.
    + right. rewrite list_lookup_insert_ne in Hj by done.
      by eapply list_elem_of_lookup_2.
  - rewrite elem_of_app, list_elem_of_singleton. tauto.
Qed.

(** A device list with one entry per id stays so: both the list written to
    and the list returned hold at most one entry per device id. *)
Theorem updateDevicesList_keeps_one_entry_per_id existingDevices :
  NoDup (Device.id <$> existingDevices) →
  ∃ arr' out,
    (SyncManager.updateDevicesList w existingDevices s).1 = Ok (arr', out) ∧
    NoDup (Device.id <$> arr') ∧ NoDup (Device.id <$> out).
Proof.
  intros Hnd. eexists _, _. split; [apply updateDevicesList_run|].
  pose proof (upsert_ids existingDevices Hnd) as Hids.
  split; [done|]. by apply filter_fmap_NoDup.
Qed.

(** The list returned holds no device from anywhere else: each entry is the
    fresh self entry or an entry of the list passed in, so it is at most one
    longer than that list. *)
Theorem updateDevicesList_returns_known_devices existingDevices :
  ∃ arr' out,
    (SyncManager.updateDevicesList w existingDevices s).1 = Ok (arr', out) ∧
    (∀ d, d ∈ out → d = selfDevice w s ∨ d ∈ existingDevices) ∧
    (length out <= S (length existingDevices))%nat.
Proof.
  eexists _, _. split; [apply updateDevicesList_run|]. split.
  - intros d Hd. apply list_elem_of_In, filter_In in Hd as [Hd _].
    apply upsert_elem. by apply list_elem_of_In.
  - etrans; [apply List.filter_length_le|].
    destruct (list_find _ existingDevices) as [[i x]|].
    + rewrite length_insert. lia.
    + rewrite length_app. simpl. lia.
Qed.

(** The synchronising device is always in the list returned, under its own
    id, seen at the first clock reading of the call and with the current
    connectivity flag (for a zone whose UTC offset moves by less than a day
    over the week, and a call that takes less than a day). *)
Theorem updateDevicesList_lists_self existingDevices :
  let today := now w (S (ticks s)) in
  Z.abs (localTZA w today true
         - localTZA w (today + localTZA w today true - 7 * msPerDay) false)
  < msPerDay →
  today - now w (ticks s) < msPerDay →
  ∃ arr' out,
    (SyncManager.updateDevicesList w existingDevices s).1 = Ok (arr', out) ∧
    selfDevice w s ∈ out ∧
    Device.id (selfDevice w s) = deviceId s ∧
    Device.lastSeen (selfDevice w s) = At (now w (ticks s)) ∧
    Device.online (selfDevice w s) = isOnline s.
Proof.
  intros today Hzone Hclock.
  pose proof (pruneCutoff_bounds w s Hzone) as Hcut. fold today in Hcut.
  destruct (updateDevicesList_spec w s existingDevices)
    as (arr' & out & Hrun & Hself & _ & _ & Hout).
  exists arr', out. split_and!; [done| |done..].
  apply Hout. split; [done|]. exists (now w (ticks s)).
  split; [done|]. unfold msPerDay in *. lia.
Qed.
End DevicesMore.

Lemma updateDevicesList_keeps_one_entry_per_id_witness :
  ∃ arr' out,
    (SyncManager.updateDevicesList (sampleWorld (Ok None) true)
       [sampleDevice "device-A" 1700000000000;
        sampleDevice "device-1700000000000-k3j9x2m1q" 1600000000000]
       (sampleState ∅ false)).1 = Ok (arr', out)
    ∧ NoDup (Device.id <$> arr') ∧ NoDup (Device.id <$> out).
Proof.
  apply (updateDevicesList_keeps_one_entry_per_id (sampleWorld (Ok None) true)
           (sampleState ∅ false)).
  apply (bool_decide_unpack _). vm_compute. reflexivity.
Defined.

Lemma updateDevicesList_returns_known_devices_witness :
  ∃ arr' out,
    (SyncManager.updateDevicesList (sampleWorld (Ok None) true)
       [sampleDevice "device-A" 1700000000000] (sampleState ∅ false)).1
    = Ok (arr', out)
    ∧ (sampleDevice "device-A" 1700000000000 ∈ out →
       sampleDevice "device-A" 1700000000000
       = selfDevice (sampleWorld (Ok None) true) (sampleState ∅ false)
       ∨ sampleDevice "device-A" 1700000000000
         ∈ [sampleDevice "device-A" 1700000000000]).
Proof.
  destruct (updateDevicesList_returns_known_devices
              (sampleWorld (Ok None) true) (sampleState ∅ false)
              [sampleDevice "device-A" 1700000000000])
    as (arr' & out & Hrun & Hknown & _).
  exists arr', out. split; [exact Hrun|]. apply Hknown.
Defined.

Lemma updateDevicesList_lists_self_witness :
  ∃ arr' out,
    (SyncManager.updateDevicesList (sampleWorld (Ok None) true)
       [sampleDevice "device-A" 1700000000000] (sampleState ∅ false)).1
    = Ok (arr', out)
    ∧ selfDevice (sampleWorld (Ok None) true) (sampleState ∅ false) ∈ out.
Proof.
  destruct (updateDevicesList_lists_self (sampleWorld (Ok None) true)
              (sampleState ∅ false) [sampleDevice "device-A" 1700000000000])
    as (arr' & out & Hrun & Hself & _).
  - vm_compute. reflexivity.
  - vm_compute. reflexivity.
  - by exists arr', out.
Defined.

(** ** Local edits ([addTask], [updateTask], [deleteTask], [getTask]) *)

(** Unfolds the monadic plumbing of the local edits. *)
Ltac run_edit :=
  unfold addTask, updateTask, deleteTask, getTask, SyncManager.new_Date,
    mbind, M_bind, mret, M_ret, get, modify, lift;
  simpl.

Section LocalEdits.
Variable w : World.
Implicit Types (s : State) (k id : Z).

(** What [addTask] does when the key it is handed is free. *)
Lemma addTask_run (taskData : TaskData.t) (nextKey : Z) s :
  tasks s !! nextKey = None →
  let task :=
    Task.mk nextKey (TaskData.title taskData) (TaskData.description taskData)
      (TaskData.priority taskData) (TaskData.category taskData)
      (TaskData.deadline taskData) false false (At (now w (ticks s)))
      (At (now w (S (ticks s)))) false (deviceId s) in
  let r := addTask w taskData nextKey s in
  r.1 = Ok (task, nextKey + 1, schedulesSync s) ∧
  tasks r.2 = <[nextKey := task]> (tasks s) ∧
  isOnline r.2 = isOnline s ∧ isSyncing r.2 = isSyncing s ∧
  trace r.2 = trace s.
Proof. intros Hfree. run_edit. rewrite Hfree. done. Qed.

(** With the key generator ahead of every key in use, [addTask] stores the
    new record under the generated key and returns it: [getTask] gives it
    back, no other row changes, the record starts live, not completed and
    not synced on this device, and the generator stays ahead. *)
Theorem addTask_round_trip (taskData : TaskData.t) (nextKey : Z) s :
  (∀ k, is_Some (tasks s !! k) → k < nextKey) →
  let r := addTask w taskData nextKey s in
  ∃ task,
    r.1 = Ok (task, nextKey + 1, autoSync s && isOnline s) ∧
    Task.id task = nextKey ∧
    (getTask nextKey r.2).1 = Ok (Some task) ∧
    (∀ k, k ≠ nextKey → tasks r.2 !! k = tasks s !! k) ∧
    Task.title task = TaskData.title taskData ∧
    Task.completed task = false ∧ Task.deleted task = false ∧
    Task.synced task = false ∧ Task.deviceId task = deviceId s ∧
    (∀ k, is_Some (tasks r.2 !! k) → k < nextKey + 1) ∧
    (keyed (tasks s) → keyed (tasks r.2)).
Proof.
  intros Hgen r.
  assert (Hfree : tasks s !! nextKey = None).
  { apply eq_None_not_Some. intros Hin. specialize (Hgen _ Hin). lia. }
  destruct (addTask_run taskData nextKey s Hfree) as (Hres & Htasks & _).
  fold r in Hres, Htasks. eexists. split; [exact Hres|].
  unfold getTask, mbind, M_bind, mret, M_ret, get. simpl. rewrite Htasks.
  split_and!; try done.
  - by rewrite lookup_insert_eq.
  - intros k Hk. by rewrite lookup_insert_ne.
  - intros k. rewrite lookup_insert. case_decide; [lia|].
    intros Hin. specialize (Hgen _ Hin). lia.
  - intros Hkeyed k t. rewrite lookup_insert.
    case_decide; [by intros [= <-]|apply Hkeyed].
Qed.

(** [deleteTask] never removes a row: an existing record stays readable by
    [getTask], marked deleted and not synced with a fresh [updatedAt] and
    the rest of its content, while no view of [getAllTasks] lists it any
    more; for an id that is not stored nothing changes, and the result is
    [true] either way. *)
Theorem deleteTask_is_soft (id : Z) s :
  let r := deleteTask w id s in
  r.1 = Ok (true, autoSync s && isOnline s) ∧
  (tasks s !! id = None → tasks r.2 = tasks s) ∧
  (∀ x, tasks s !! id = Some x →
        ∃ x', tasks r.2 !! id = Some x' ∧
              Task.deleted x' = true ∧ Task.synced x' = false ∧
              Task.updatedAt x' = At (now w (ticks s)) ∧
              Task.id x' = Task.id x ∧ Task.title x' = Task.title x ∧
              Task.completed x' = Task.completed x ∧
              Task.createdAt x' = Task.createdAt x) ∧
  (∀ k, k ≠ id → tasks r.2 !! k = tasks s !! k) ∧
  (keyed (tasks s) →
   ∀ tza today filter t,
     t ∈ TaskManager.getAllTasks tza today filter (tasks r.2) → Task.id t ≠ id).
Proof.
  intros r. subst r. run_edit.
  destruct (tasks s !! id) as [x|] eqn:Hx; simpl.
  - split_and!; try done.
    + intros x' [= <-]. eexists. split; [apply lookup_insert_eq|done].
    + intros k Hk. by rewrite lookup_insert_ne.
    + intros Hkeyed tza today filter t Ht Hid.
      apply getAllTasks_elem in Ht as [Hlive [k Hk]].
      rewrite lookup_insert in Hk. case_decide as Hkid.
      * injection Hk as <-. done.
      * pose proof (Hkeyed k t Hk). congruence.
  - split_and!; try done.
    intros Hkeyed tza today filter t Ht Hid.
    apply getAllTasks_elem in Ht as [Hlive [k Hk]].
    pose proof (Hkeyed k t Hk). congruence.
Qed.

(** [updateTask] on an id that is not stored returns nothing and changes
    nothing; on a stored record it returns the patched record, whose id,
    [createdAt], tombstone flag and origin device are as before, whose
    [updatedAt] is the clock reading and which is marked not synced; no
    other row changes. *)
Theorem updateTask_patches_one_row (id : Z) (updates : Updates.t) s :
  let r := updateTask w id updates s in
  (tasks s !! id = None →
   r.1 = Ok (None, autoSync s && isOnline s) ∧ tasks r.2 = tasks s) ∧
  (∀ x, tasks s !! id = Some x →
        ∃ x', r.1 = Ok (Some x', autoSync s && isOnline s) ∧
              tasks r.2 !! id = Some x' ∧
              Task.id x' = Task.id x ∧ Task.createdAt x' = Task.createdAt x ∧
              Task.deleted x' = Task.deleted x ∧
              Task.deviceId x' = Task.deviceId x ∧
              Task.synced x' = false ∧
              Task.updatedAt x' = At (now w (ticks s)) ∧
              Task.completed x'
              = default (Task.completed x) (Updates.completed updates) ∧
              Task.title x' = default (Task.title x) (Updates.title updates)) ∧
  (∀ k, k ≠ id → tasks r.2 !! k = tasks s !! k).
Proof.
  intros r. subst r. run_edit.
  destruct (tasks s !! id) as [x|] eqn:Hx; simpl.
  - rewrite lookup_insert_eq. split_and!; try done.
    + intros x' [= <-]. eexists. split_and!; done.
    + intros k Hk. by rewrite lookup_insert_ne.
  - rewrite Hx. done.
Qed.
End LocalEdits.

Lemma addTask_round_trip_witness :
  ∃ task,
    (addTask (sampleWorld (Ok None) true)
       (TaskData.mk "Comprar pan" "" "high" "personal" Missing) 2
       (sampleState storeA false)).1
    = Ok (task, 3, true)
    ∧ Task.id task = 2.
Proof.
  destruct (addTask_round_trip (sampleWorld (Ok None) true)
              (TaskData.mk "Comprar pan" "" "high" "personal" Missing) 2
              (sampleState storeA false))
    as (task & Hres & Hid & _).
  - intros k [t Ht]. simpl in Ht. unfold storeA in Ht.
    apply lookup_singleton_Some in Ht as [<- _]. lia.
  - exists task. split; [exact Hres|exact Hid].
Defined.

Lemma deleteTask_is_soft_witness :
  ∃ x', tasks (deleteTask (sampleWorld (Ok None) true) 1
                 (sampleState storeA false)).2 !! 1 = Some x'
        ∧ Task.deleted x' = true ∧ Task.synced x' = false.
Proof.
  destruct (deleteTask_is_soft (sampleWorld (Ok None) true) 1
              (sampleState storeA false))
    as (_ & _ & Hsoft & _).
  destruct (Hsoft (sampleTask 1 "A" (At 10)))
    as (x' & Hrow & Hdel & Hsynced & _).
  - vm_compute. reflexivity.
  - by exists x'.
Defined.

Lemma updateTask_patches_one_row_witness :
  (updateTask (sampleWorld (Ok None) true) 7
     (Updates.mk None None None None None (Some true))
     (sampleState storeA false)).1
  = Ok (None, true).
Proof.
  apply (updateTask_patches_one_row (sampleWorld (Ok None) true) 7
           (Updates.mk None None None None None (Some true))
           (sampleState storeA false)).
  vm_compute. reflexivity.
Defined.

(** ** Statistics ([getStats]) *)

Section StatsFacts.
Variable w : World.

(** The deadline filter of [getStats] always returns, with tasks of its
    input that have a deadline, and touches neither table nor trace. *)
Lemma dueToday_run (l : list Task.t) (s : State) :
  ∃ kept s', dueToday w l s = (Ok kept, s') ∧
             (length kept <= length l)%nat ∧
             (∀ t, t ∈ kept → t ∈ l ∧ truthy (Task.deadline t) = true) ∧
             tasks s' = tasks s ∧ trace s' = trace s.
Proof.
  revert s. induction l as [|t l IH]; intros s; simpl.
  - exists [], s. split_and!; [done..| |done|done].
    intros t Ht. by apply elem_of_nil in Ht.
  - unfold mbind, M_bind, mret, M_ret, SyncManager.new_Date. simpl.
    destruct (truthy (Task.deadline t)) eqn:Hdl; simpl.
    + destruct (IH (set_ticks (S (ticks s)) s))
        as (kept & s' & -> & Hlen & Hsub & Htasks & Htrace).
      destruct (match Date_of (Task.deadline t) with
                | NaN => false
                | Time ms => bool_decide _
                end); eexists _, _; (split; [done|]); simpl;
        (split_and!; [lia| |done|done]).
      * intros t' [->|Ht']%elem_of_cons.
        -- split; [by left|done].
        -- destruct (Hsub t' Ht'). split; [by right|done].
      * intros t' Ht'. destruct (Hsub t' Ht'). split; [by right|done].
    + destruct (IH s) as (kept & s' & -> & Hlen & Hsub & Htasks & Htrace).
      exists kept, s'. split_and!; [done|lia| |done|done].
      intros t' Ht'. destruct (Hsub t' Ht'). split; [by right|done].
Qed.

Lemma filter_lengths {A} (p : A → bool) (l : list A) :
  (length (List.filter p l) + length (List.filter (fun x => negb (p x)) l)
   = length l)%nat.
Proof.
  induction l as [|x l IH]; simpl; [done|]. destruct (p x); simpl; lia.
Qed.

(** The counters of [getStats] are consistent: [total] counts the live
    records (tombstones are not counted), [completed] and [pending] add up
    to it, and neither [highPriority] nor [today] exceeds it; computing
    them changes neither the table nor the trace. *)
Theorem getStats_counts_add_up (s : State) :
  ∃ st s',
    getStats w s = (Ok st, s') ∧
    Stats.total st
    = length (TaskManager.getAllTasks (localTZA w) (now w (ticks s)) "all"
                                      (tasks s)) ∧
    (Stats.completed st + Stats.pending st = Stats.total st)%nat ∧
    (Stats.highPriority st <= Stats.total st)%nat ∧
    (Stats.today st <= Stats.total st)%nat ∧
    tasks s' = tasks s ∧ trace s' = trace s.
Proof.
  unfold getStats, SyncManager.taskManager_getAllTasks, mbind, M_bind, mret,
    M_ret, get. simpl.
  destruct (dueToday_run
              (TaskManager.getAllTasks (localTZA w) (now w (ticks s)) "all"
                                       (tasks s)) s)
    as (kept & s' & -> & Hlen & _ & Htasks & Htrace).
  eexists _, _. split; [done|]. simpl.
  split_and!; [done|apply filter_lengths|apply List.filter_length_le|done..].
Qed.
End StatsFacts.

(** ** A local edit followed by a cycle *)

Section AddThenSync.
Variable w : World.

(** A task added locally reaches the remote document with the next cycle
    that gets through, and comes back marked synced, provided the remote
    document holds no record under the key the task was given. *)
Theorem added_task_reaches_remote (taskData : TaskData.t) (nextKey : Z)
    (s : State) (rd : RemoteData) :
  (∀ k, is_Some (tasks s !! k) → k < nextKey) → keyed (tasks s) →
  canEnter w s = true → getData w = Ok (Some rd) →
  nextKey ∉ Task.id <$> default [] (rd_tasks rd) →
  (∀ doc, ∃ res, saveData w doc = Ok res ∧ success res = true) →
  let s1 := (addTask w taskData nextKey s).2 in
  let s2 := (SyncManager.syncWithGitHub w s1).2 in
  ∃ task merged,
    (addTask w taskData nextKey s).1
    = Ok (task, nextKey + 1, autoSync s && isOnline s) ∧
    writtenTasks (trace s2) = writtenTasks (trace s1) ++ [merged] ∧
    task ∈ merged ∧
    tasks s2 !! nextKey = Some (Task.with_synced true task).
Proof.
  intros Hgen Hkeyed Henter Hget Hfresh Hsave s1 s2.
  assert (Hfree : tasks s !! nextKey = None).
  { apply eq_None_not_Some. intros Hin. specialize (Hgen _ Hin). lia. }
  destruct (addTask_run w taskData nextKey s Hfree)
    as (Hres & Htasks & Hon & Hbusy & _).
  fold s1 in Htasks, Hon, Hbusy.
  set (task := Task.mk nextKey _ _ _ _ _ _ _ _ _ _ _) in *.
  assert (Henter1 : canEnter w s1 = true).
  { unfold canEnter in *. by rewrite Hon, Hbusy. }
  assert (Hkeyed1 : keyed (tasks s1)).
  { rewrite Htasks. intros k t. rewrite lookup_insert.
    case_decide; [by intros [= <-]|apply Hkeyed]. }
  destruct (syncWithGitHub_success w s1 rd Henter1 Hget Hsave)
    as (Htasks2 & _ & _ & _ & Hwritten).
  fold s2 in Htasks2, Hwritten.
  set (locals := TaskManager.getAllTasks _ _ _ _) in *.
  set (merged := mergeData locals _) in *.
  assert (Hlocal : task ∈ locals).
  { apply getAllTasks_all_elem. split; [done|]. exists nextKey.
    rewrite Htasks. apply lookup_insert_eq. }
  assert (Hmerged : task ∈ merged).
  { apply mergeData_elem. unfold mergeOne.
    rewrite index_get_NoDup;
      [|by apply getAllTasks_ids_NoDup|done].
    by rewrite (index_keys_elem_not _ (Task.id task) Hfresh). }
  exists task, merged. split_and!; [done..|].
  rewrite Htasks2. unfold TaskManager.syncTasks.
  rewrite lookup_fmap.
  pose proof (foldl_syncOne_lookup_in merged (tasks s1) task
                (mergeData_ids_NoDup _ _) Hmerged) as Hrow.
  change (Task.id task) with nextKey in Hrow. rewrite Hrow.
  rewrite Htasks, lookup_insert_eq. unfold rowAfter. simpl.
  by rewrite Z.ltb_irrefl.
Qed.
End AddThenSync.

Lemma added_task_reaches_remote_witness :
  ∃ (task : Task.t) (merged : list Task.t),
    (addTask (sampleWorld (Ok (Some remoteBC)) true)
       (TaskData.mk "Comprar pan" "" "high" "personal" Missing) 3
       (sampleState storeA false)).1
    = Ok (task, 4, true)
    ∧ task ∈ merged
    ∧ tasks (SyncManager.syncWithGitHub (sampleWorld (Ok (Some remoteBC)) true)
               (addTask (sampleWorld (Ok (Some remoteBC)) true)
                  (TaskData.mk "Comprar pan" "" "high" "personal" Missing) 3
                  (sampleState storeA false)).2).2 !! 3
      = Some (Task.with_synced true task).
Proof.
  destruct (added_task_reaches_remote (sampleWorld (Ok (Some remoteBC)) true)
              (TaskData.mk "Comprar pan" "" "high" "personal" Missing) 3
              (sampleState storeA false) remoteBC)
    as (task & merged & Hres & _ & Hin & Hrow).
  - intros k [t Ht]. simpl in Ht. unfold storeA in Ht.
    apply lookup_singleton_Some in Ht as [<- _]. lia.
  - apply (keyed_singleton (sampleTask 1 "A" (At 10))).
  - reflexivity.
  - reflexivity.
  - apply (bool_decide_unpack _). vm_compute. reflexivity.
  - intros doc. eexists. split; reflexivity.
  - exists task, merged. split_and!; [exact Hres|exact Hin|exact Hrow].
Defined.
